(** * Extract service: safe fetch and text normalisation

    A shallow embedding of [extract-service/app/main.py] and the properties
    of its URL validation, fetch orchestration and text post-processing.

    Python values are modelled as follows.
    - [str] is a list of Unicode code points ([N]); [len] is [length].
    - [bytes] is a list of [Byte.byte].
    - [int] is [Z] (Python integers are unbounded).
    - an exception is a value of [exn]; a call that may raise returns a
      [result].
    - the process-wide socket default timeout and the sequence of calls into
      the network libraries live in an explicit [World] threaded through the
      effectful functions.
    - what the Python runtime and the third-party libraries compute
      ([str.lower], [int], [urlparse], [ipaddress], [re.search], the
      resolver, playwright, requests, the codec registry) is a field of
      [Runtime]: every theorem holds for all runtimes. *)

From Stdlib Require Import ZArith NArith List Bool Lia String Ascii DecimalString.
From stdpp Require Import base decidable countable gmap.
Import ListNotations.

Local Open Scope list_scope.

(** ** Python strings *)

Module PyStr.

Definition str := list N.
Definition bytes := list Byte.byte.

(** An ASCII literal as a Python string. *)
Definition py (s : string) : str :=
  List.map N_of_ascii (list_ascii_of_string s).

(** [str.isspace] on one code point, which is also what [\s] matches in a
    [re] pattern applied to a [str]. *)
Definition isspace (c : N) : bool :=
  ((9 <=? c) && (c <=? 13) || (28 <=? c) && (c <=? 32)
   || (c =? 133) || (c =? 160) || (c =? 5760)
   || (8192 <=? c) && (c <=? 8202)
   || (c =? 8232) || (c =? 8233) || (c =? 8239) || (c =? 8287)
   || (c =? 12288))%N.

(** [s.lstrip(chars)], [s.rstrip(chars)] and [s.strip(chars)], the set of
    characters being given by its membership test.  The right end is reached
    by reversing the string ([rev_append s []] is [s] reversed). *)
Fixpoint lstrip_by (f : N -> bool) (s : str) : str :=
  match s with
  | [] => []
  | c :: s' => if f c then lstrip_by f s' else s
  end.

Definition rstrip_by (f : N -> bool) (s : str) : str :=
  rev_append (lstrip_by f (rev_append s [])) [].

Definition strip_by (f : N -> bool) (s : str) : str :=
  rstrip_by f (lstrip_by f s).

(** [s] does not begin, respectively end, with a character of the set. *)
Definition clean_head (f : N -> bool) (s : str) : bool :=
  match s with
  | [] => true
  | c :: _ => negb (f c)
  end.

Definition clean_last (f : N -> bool) (s : str) : bool :=
  clean_head f (rev_append s []).

(** A string is trimmed when it neither begins nor ends with a character of
    the set. *)
Definition trimmed (f : N -> bool) (s : str) : Prop :=
  clean_head f s = true /\ clean_last f s = true.

(** Without argument they remove whitespace. *)
Definition lstrip : str -> str := lstrip_by isspace.
Definition rstrip : str -> str := rstrip_by isspace.
Definition strip : str -> str := strip_by isspace.

(** [s.strip(c)] for a one-character [c]. *)
Definition strip_char (c : N) : str -> str := strip_by (N.eqb c).

(** [s.startswith(prefix)] and [s.endswith(suffix)] *)
Fixpoint startswith (s prefix : str) : bool :=
  match prefix, s with
  | [], _ => true
  | p :: prefix', c :: s' => (p =? c)%N && startswith s' prefix'
  | _ :: _, [] => false
  end.

Definition endswith (s suffix : str) : bool :=
  startswith (rev s) (rev suffix).

(** [s == t] *)
Definition str_eqb (s t : str) : bool := bool_decide (s = t).

(** Truthiness of a string: [not s] holds exactly of the empty one. *)
Definition nonempty (s : str) : bool :=
  match s with [] => false | _ :: _ => true end.

(** [x or ""] for an [x] that is a string or [None]. *)
Definition or_empty (x : option str) : str :=
  match x with Some s => s | None => [] end.

(** Truthiness of a string or [None]. *)
Definition truthy (x : option str) : bool := nonempty (or_empty x).

(** [re.sub(r"\s+", " ", s)]: every maximal run of whitespace becomes one
    space.  [in_run] tells that the previous character was whitespace, so
    the run it belongs to has been replaced already. *)
Fixpoint collapse_ws_from (in_run : bool) (s : str) : str :=
  match s with
  | [] => []
  | c :: s' =>
      if isspace c
      then (if in_run then collapse_ws_from true s'
            else 32%N :: collapse_ws_from true s')
      else c :: collapse_ws_from false s'
  end.

Definition collapse_ws (s : str) : str := collapse_ws_from false s.

Definition NL : N := 10%N.

(** ["\n\n".join(parts)] *)
Fixpoint join_nn (parts : list str) : str :=
  match parts with
  | [] => []
  | [b] => b
  | b :: rest => b ++ NL :: NL :: join_nn rest
  end.

(** [s.split("\n\n")]: the text between the successive occurrences of the
    separator, found left to right without overlap.  The result is never the
    empty list: a string without the separator gives itself. *)
Fixpoint split_nn (s : str) : list str :=
  match s with
  | [] => [[]]
  | c :: s' =>
      match s' with
      | d :: s'' =>
          if (c =? NL)%N && (d =? NL)%N then [] :: split_nn s''
          else match split_nn s' with
               | [] => [[c]]
               | p :: ps => (c :: p) :: ps
               end
      | [] => [[c]]
      end
  end.

(** [str(n)] for an [int]. *)
Definition str_of_int (z : Z) : str :=
  py (NilZero.string_of_int (Z.to_int z)).

End PyStr.

Import PyStr.

(** ** Exceptions, results and Python values *)

(** [HTTPException(status_code, detail)], or any other subclass of
    [Exception], given by the name of its class. *)
Inductive exn : Type :=
| HTTPException (status_code : Z) (detail : str)
| PyError (cls : str).

Inductive result (A : Type) : Type :=
| Ok (a : A)
| Raise (e : exn).
Arguments Ok {A} a.
Arguments Raise {A} e.

Definition Unauthorized : exn := HTTPException 401 (py "unauthorized").
Definition InvalidURL : exn := HTTPException 422 (py "Invalid url").
Definition FetchTimeout : exn := HTTPException 504 (py "timeout").
Definition FetchFailure (reason : str) : exn :=
  HTTPException 502 (py "fetch failed: " ++ reason).

(** A value that reaches the service from a query string or a JSON body.
    Everything that is not [None], a [bool], an [int] or a [str] (a
    [float], a [list], a [dict]) is given by what [bool()], [int()] and
    [str()] make of it. *)
Inductive PyVal : Type :=
| PyNone
| PyBool (b : bool)
| PyInt (z : Z)
| PyStr (s : str)
| PyOther (as_bool : bool) (as_int : option Z) (as_str : str).

(** [bool(v)] *)
Definition py_truthy (v : PyVal) : bool :=
  match v with
  | PyNone => false
  | PyBool b => b
  | PyInt z => negb (z =? 0)%Z
  | PyStr s => nonempty s
  | PyOther b _ _ => b
  end.

(** [str(v)] *)
Definition py_str (v : PyVal) : str :=
  match v with
  | PyNone => py "None"
  | PyBool true => py "True"
  | PyBool false => py "False"
  | PyInt z => str_of_int z
  | PyStr s => s
  | PyOther _ _ s => s
  end.

(** The result of [urlparse], with the attributes the service reads.
    Reading [port] raises [ValueError] when the port is not a number in
    range: [PortInvalid]. *)
Inductive PortField : Type :=
| PortInvalid
| PortValue (n : option Z).

Record ParseResult : Type := {
  scheme : str;
  netloc : str;
  username : option str;
  password : option str;
  hostname : option str;
  port : PortField
}.

(** An address object of the [ipaddress] module. *)
Inductive ip_addr : Type :=
| IPv4Address (n : N)
| IPv6Address (n : N) (scope_id : option str).

(** What the headless browser does with a navigation. *)
Inductive PWOutcome : Type :=
| PWImportError
| PWTimeout
| PWError (msg cls : str)
| PWContent (html : option str).

(** A [requests] response read as a stream: the chunks [iter_content]
    yields, and the class of the exception it raises after them, if any. *)
Inductive AttrOutcome : Type :=
| AttrValue (v : option str)
| AttrRaises (cls : str).

Record Response : Type := {
  status_code : Z;
  body_chunks : list bytes;
  body_error : option str;
  encoding : option str;
  apparent_encoding : AttrOutcome
}.

Inductive GetOutcome : Type :=
| GetTimeout
| GetTooManyRedirects (msg cls : str)
| GetRequestException (msg cls : str)
| GetOtherException (cls : str)
| GetResponse (r : Response).

(** What a codec makes of data with [errors="replace"]: the text, or the
    class of the exception it raises (some codecs raise whatever the error
    handler: [undefined] always, [idna] for this handler). *)
Inductive DecodeOutcome : Type :=
| Decoded (text : str)
| DecodeRaises (cls : str).

(** ** The runtime and the libraries *)

Record Runtime : Type := {
  (** [str.lower] *)
  str_lower : str -> str;
  (** [int(s)] for a [str]; [None] when it raises [ValueError] *)
  int_of_str : str -> option Z;
  (** group 1 of the first match of the [url = ...] pattern *)
  re_search_url : str -> option str;
  (** group 1 of the first match of the [timeout = digits] pattern *)
  re_search_timeout : str -> option str;
  (** [urlparse]; [None] when it raises [ValueError] *)
  urlparse : str -> option ParseResult;
  (** [ipaddress.ip_address]; [None] when it raises [ValueError] *)
  ip_address : str -> option ip_addr;
  (** the [is_global] attribute of an address *)
  is_global : ip_addr -> bool;
  (** [socket.getaddrinfo(host, port, type=SOCK_STREAM)], each entry given
      by its [info[4][0]]; [None] when it raises *)
  getaddrinfo : str -> Z -> option (list str);
  (** the browser, on a URL and a timeout in milliseconds *)
  playwright : str -> Z -> PWOutcome;
  (** [session.get], on a URL, a connect timeout and a read timeout *)
  session_get : str -> Z -> Z -> GetOutcome;
  (** the codec registry, each codec with [errors="replace"]; [None] for a
      name it does not know *)
  codec_lookup : str -> option (bytes -> DecodeOutcome)
}.

(** Process configuration, read from the environment at start-up. *)
Record Config : Type := {
  EXTRACT_API_KEY : option str;
  MAX_REDIRECTS : Z;
  MAX_HTML_BYTES : Z
}.

(** ** The world: process-wide state and calls into the libraries *)

Inductive Event : Type :=
| EvGetAddrInfo (host : str) (port : Z) (default_timeout : option Z)
| EvPlaywright (url : str) (timeout_ms : Z)
| EvSessionGet (url : str) (connect_timeout read_timeout : Z).

Record World : Type := {
  sock_default_timeout : option Z;
  calls : list Event
}.

Module Eff.

Definition M (A : Type) : Type := World -> result A * World.

Definition ret {A} (a : A) : M A := fun w => (Ok a, w).

Definition raise {A} (e : exn) : M A := fun w => (Raise e, w).

Definition bind {A B} (m : M A) (k : A -> M B) : M B :=
  fun w =>
    match m w with
    | (Ok a, w') => k a w'
    | (Raise e, w') => (Raise e, w')
    end.

(** [try: m  except Exception as e: h e] *)
Definition try_except {A} (m : M A) (h : exn -> M A) : M A :=
  fun w =>
    match m w with
    | (Ok a, w') => (Ok a, w')
    | (Raise e, w') => h e w'
    end.

(** [try: m  finally: fin] *)
Definition try_finally {A} (m : M A) (fin : M unit) : M A :=
  fun w =>
    match m w with
    | (r, w') =>
        match fin w' with
        | (Ok _, w'') => (r, w'')
        | (Raise e, w'') => (Raise e, w'')
        end
    end.

(** [socket.getdefaulttimeout()] *)
Definition getdefaulttimeout : M (option Z) :=
  fun w => (Ok (sock_default_timeout w), w).

(** [socket.setdefaulttimeout(v)]: a negative [v] is refused with
    [ValueError] and nothing changes. *)
Definition setdefaulttimeout (v : option Z) : M unit :=
  fun w =>
    match v with
    | Some z =>
        if (z <? 0)%Z then (Raise (PyError (py "ValueError")), w)
        else (Ok tt, {| sock_default_timeout := v; calls := calls w |})
    | None => (Ok tt, {| sock_default_timeout := v; calls := calls w |})
    end.

(** [socket.setdefaulttimeout(v)] for a [v] that [getdefaulttimeout]
    returned: the module accepted this value when it was set, so putting it
    back raises nothing. *)
Definition restore_default_timeout (v : option Z) : M unit :=
  fun w => (Ok tt, {| sock_default_timeout := v; calls := calls w |}).

(** Record a call into a library. *)
Definition emit (ev : Event) : M unit :=
  fun w => (Ok tt, {| sock_default_timeout := sock_default_timeout w;
                      calls := calls w ++ [ev] |}).

(** Lift a pure result. *)
Definition lift {A} (r : result A) : M A := fun w => (r, w).

End Eff.

Import Eff.

Notation "x <- m ;; k" := (bind m (fun x => k))
  (at level 100, m at next level, right associativity).
Notation "m ;;; k" := (bind m (fun _ => k))
  (at level 100, right associativity).

(** ** The service *)

Record Request : Type := {
  headers : gmap str str;
  query_params : gmap str str
}.

(** The parsed body: a JSON object, or anything else (no body, a body that
    is not JSON, a JSON value that is not an object). *)
Inductive BodyJson : Type :=
| BodyDict (d : gmap str PyVal)
| BodyOther.

(** [d.get(key)] *)
Definition dict_get (d : gmap str PyVal) (key : str) : PyVal :=
  match d !! key with Some v => v | None => PyNone end.

(** [params.get(key)], a string or [None], as a value. *)
Definition param_get (params : gmap str str) (key : str) : PyVal :=
  match params !! key with Some s => PyStr s | None => PyNone end.

Section Service.

Variable rt : Runtime.
Variable cfg : Config.

(** [API_KEY = (os.getenv("EXTRACT_API_KEY") or "").strip()] *)
Definition API_KEY : str := strip (or_empty (EXTRACT_API_KEY cfg)).

Definition _check_api_key (request : Request) : result unit :=
  if negb (nonempty API_KEY) then Ok tt
  else
    let got := strip (or_empty (headers request !! py "x-api-key")) in
    if negb (str_eqb got API_KEY) then Raise Unauthorized else Ok tt.

(** [int(raw)]; [None] when it raises. *)
Definition py_int (raw : PyVal) : option Z :=
  match raw with
  | PyNone => None
  | PyBool b => Some (if b then 1 else 0)%Z
  | PyInt z => Some z
  | PyStr s => int_of_str rt s
  | PyOther _ i _ => i
  end.

Definition _parse_timeout_s (raw : PyVal) (default_s : Z) : Z :=
  let t := match py_int raw with Some t => t | None => default_s end in
  let t := Z.max 1 (Z.min 180 t) in
  Z.min 60 t.

Definition _extract_url_and_timeout_from_text (text : str)
  : result (option str * option Z) :=
  let s := strip text in
  if negb (nonempty s) then Ok (None, None)
  else
    let raw_url := option_map strip (re_search_url rt s) in
    match re_search_timeout rt s with
    | None => Ok (raw_url, None)
    | Some digits =>
        match int_of_str rt digits with
        | Some t => Ok (raw_url, Some t)
        | None => Raise (PyError (py "ValueError"))
        end
    end.

Definition _is_public_ip (ip : str) : bool :=
  match ip_address rt ip with
  | None => false
  | Some addr => is_global rt addr
  end.

(** The call of the resolver, recorded with the default timeout in force
    while it runs. *)
Definition resolve (host : str) (port : Z) : M (list str) :=
  fun w =>
    let w' := {| sock_default_timeout := sock_default_timeout w;
                 calls := calls w ++
                   [EvGetAddrInfo host port (sock_default_timeout w)] |} in
    match getaddrinfo rt host port with
    | None => (Raise (PyError (py "gaierror")), w')
    | Some infos => (Ok infos, w')
    end.

(** The loop over the resolver's entries. *)
Fixpoint check_infos (infos : list str) : M unit :=
  match infos with
  | [] => ret tt
  | ip :: rest =>
      if negb (_is_public_ip ip) then raise InvalidURL
      else check_infos rest
  end.

(** [p.port or (443 if p.scheme == "https" else 80)]; reading [p.port] may
    raise. *)
Definition port_or_default (p : ParseResult) : result Z :=
  let default_port := (if str_eqb (scheme p) (py "https") then 443 else 80)%Z in
  match port p with
  | PortInvalid => Raise (PyError (py "ValueError"))
  | PortValue None => Ok default_port
  | PortValue (Some n) => Ok (if (n =? 0)%Z then default_port else n)
  end.

(** The host as the checks see it: [(p.hostname or "").strip().lower()]. *)
Definition checked_hostname (p : ParseResult) : str :=
  str_lower rt (strip (or_empty (hostname p))).

(** The candidate after [strip()] and the three further [strip(c)] calls,
    [c] being the backquote (96), the double quote (34) and the single quote
    (39). *)
Definition clean_url (raw_url : str) : str :=
  strip_char 39 (strip_char 34 (strip_char 96 (strip raw_url))).

Definition is_local_name (host : str) : bool :=
  str_eqb host (py "localhost")
  || endswith host (py ".localhost")
  || endswith host (py ".local").

(** The resolution of a domain name and the check of its addresses: the
    [try] statement of [_validate_public_http_url] with the two statements
    before it, which save the default timeout and set it for the lookup.
    Setting it stands outside the [try]: the [ValueError] of a negative
    timeout leaves the function as it is. *)
Definition dns_check (p : ParseResult) (host : str) (timeout_s : Z) : M unit :=
  old_timeout <- getdefaulttimeout ;;
  setdefaulttimeout (Some (Z.min 3 timeout_s)) ;;;
  try_finally
    (try_except
       (port <- lift (port_or_default p) ;;
        infos <- resolve host port ;;
        check_infos infos)
       (fun e =>
          match e with
          | HTTPException _ _ => raise e
          | PyError _ => raise InvalidURL
          end))
    (restore_default_timeout old_timeout).

Definition _validate_public_http_url (raw_url : str) (timeout_s : Z) : M str :=
  let s := clean_url raw_url in
  match urlparse rt s with
  | None => raise (PyError (py "ValueError"))
  | Some p =>
      if negb (str_eqb (scheme p) (py "http") || str_eqb (scheme p) (py "https"))
      then raise InvalidURL
      else if negb (nonempty (netloc p)) || truthy (username p) || truthy (password p)
      then raise InvalidURL
      else
        let host := checked_hostname p in
        if negb (nonempty host) then raise InvalidURL
        else if is_local_name host then raise InvalidURL
        else if _is_public_ip host then ret s
        else
          match ip_address rt host with
          | Some _ => raise InvalidURL
          | None => dns_check p host timeout_s ;;; ret s
          end
  end.

(** [_short_fetch_reason(e)], [e] given by [str(e)] and the name of its
    class. *)
Definition _short_fetch_reason (msg cls : str) : str :=
  let msg := if nonempty msg then msg else cls in
  firstn 200 (strip (collapse_ws msg)).

Definition _extract_input (request : Request) (body_json : BodyJson)
    (body_text : str) : M (str * Z) :=
  let q_url := strip (or_empty (query_params request !! py "url")) in
  if nonempty q_url then
    let timeout_s :=
      _parse_timeout_s (param_get (query_params request) (py "timeout")) 15 in
    url <- _validate_public_http_url q_url timeout_s ;;
    ret (url, timeout_s)
  else
    let from_json :=
      match body_json with
      | BodyDict d =>
          (dict_get d (py "url"),
           _parse_timeout_s (dict_get d (py "timeout")) 15)
      | BodyOther => (PyNone, 15%Z)
      end in
    from_text <-
      (if negb (py_truthy (fst from_json)) then
         scanned <- lift (_extract_url_and_timeout_from_text body_text) ;;
         let raw_url :=
           if truthy (fst scanned) then PyStr (or_empty (fst scanned))
           else fst from_json in
         let timeout_s :=
           match snd scanned with
           | Some t => _parse_timeout_s (PyInt t) (snd from_json)
           | None => snd from_json
           end in
         ret (raw_url, timeout_s)
       else ret from_json) ;;
    if negb (py_truthy (fst from_text)) then raise InvalidURL
    else
      url <- _validate_public_http_url (py_str (fst from_text)) (snd from_text) ;;
      ret (url, snd from_text).

Definition _fetch_html_rendered (url : str) (timeout_s : Z) : M str :=
  let timeout_ms := (Z.min 60 timeout_s * 1000)%Z in
  emit (EvPlaywright url timeout_ms) ;;;
  match playwright rt url timeout_ms with
  | PWImportError => raise (PyError (py "RuntimeError"))
  | PWTimeout => raise FetchTimeout
  | PWError msg cls => raise (FetchFailure (_short_fetch_reason msg cls))
  | PWContent html =>
      let html := strip (or_empty html) in
      if negb (nonempty html) then raise (FetchFailure (py "empty html"))
      else ret html
  end.

(** The loop over [r.iter_content(chunk_size=65536)], [buf] being the bytes
    accumulated so far. *)
Fixpoint read_body (chunks : list bytes) (err : option str) (buf : bytes)
  : result bytes :=
  match chunks with
  | [] =>
      match err with
      | Some cls => Raise (PyError cls)
      | None => Ok buf
      end
  | chunk :: rest =>
      match chunk with
      | [] => read_body rest err buf
      | _ :: _ =>
          let buf := buf ++ chunk in
          if (MAX_HTML_BYTES cfg <? Z.of_nat (length buf))%Z
          then Raise (FetchFailure (py "html too large"))
          else read_body rest err buf
      end
  end.

(** [r.encoding or getattr(r, "apparent_encoding", None) or "utf-8"];
    [getattr] with a default absorbs [AttributeError] only. *)
Definition response_encoding (r : Response) : result str :=
  if truthy (encoding r) then Ok (or_empty (encoding r))
  else
    match apparent_encoding r with
    | AttrValue v => Ok (if truthy v then or_empty v else py "utf-8")
    | AttrRaises cls =>
        if str_eqb cls (py "AttributeError") then Ok (py "utf-8")
        else Raise (PyError cls)
    end.

(** [data.decode(encoding, errors="replace")].  Empty data decode to the
    empty string without the codec being looked up.  Otherwise the codec is
    looked up by name, which raises [LookupError] for a name the registry
    does not know, and what the codec raises leaves [decode] as it is. *)
Definition decode (enc : str) (data : bytes) : result str :=
  match data with
  | [] => Ok []
  | _ :: _ =>
      match codec_lookup rt enc with
      | None => Raise (PyError (py "LookupError"))
      | Some codec =>
          match codec data with
          | Decoded text => Ok text
          | DecodeRaises cls => Raise (PyError cls)
          end
      end
  end.

Definition _fetch_html (url : str) (timeout_s : Z) : M str :=
  let connect_timeout_s := Z.min 5 timeout_s in
  emit (EvSessionGet url connect_timeout_s timeout_s) ;;;
  match session_get rt url connect_timeout_s timeout_s with
  | GetTimeout => raise FetchTimeout
  | GetTooManyRedirects msg cls =>
      raise (FetchFailure (py "too many redirects ("
                           ++ _short_fetch_reason msg cls ++ py ")"))
  | GetRequestException msg cls =>
      raise (FetchFailure (_short_fetch_reason msg cls))
  | GetOtherException cls => raise (PyError cls)
  | GetResponse r =>
      if (400 <=? status_code r)%Z
      then raise (FetchFailure (py "upstream http " ++ str_of_int (status_code r)))
      else
        buf <- lift (read_body (body_chunks r) (body_error r) []) ;;
        enc <- lift (response_encoding r) ;;
        text <- lift (decode enc buf) ;;
        let html := strip text in
        if negb (nonempty html) then raise (FetchFailure (py "empty html"))
        else ret html
  end.

Definition _fetch_html_best_effort (url : str) (timeout_s : Z) : M str :=
  try_except (_fetch_html_rendered url timeout_s)
    (fun e =>
       match e with
       | HTTPException code _ =>
           if (code =? 504)%Z then raise e
           else _fetch_html url timeout_s
       | PyError _ => _fetch_html url timeout_s
       end).

(** *** Block deduplication *)

(** [re.sub(r"\s+", " ", b).strip().lower()] *)
Definition block_key (b : str) : str :=
  str_lower rt (strip (collapse_ws b)).

Record DedupeState : Type := {
  seen : gset str;
  out : list str
}.

(** One turn of the loop over the blocks. *)
Definition dedupe_step (st : DedupeState) (b : str) : DedupeState :=
  if negb (nonempty b) then st
  else
    let key := block_key b in
    if negb (nonempty key) || bool_decide (key ∈ seen st) then st
    else {| seen := {[key]} ∪ seen st; out := out st ++ [b] |}.

Definition _dedupe_blocks (text : str) : str :=
  let blocks := List.map strip (split_nn text) in
  let st := fold_left dedupe_step blocks {| seen := ∅; out := [] |} in
  strip (join_nn (out st)).

End Service.

(** *** Length cap *)

Definition TEXT_CAP : nat := 12 * 1000.

(** The literal appended by [_apply_limits]: two newlines and the nine
    characters of the notice, U+FF08 ... U+FF09. *)
Definition TRUNCATION_MARKER : str :=
  [10; 10; 65288; 20869; 23481; 36807; 38271; 24050; 25130; 26029; 65289]%N.

Definition _apply_limits (text : str) : str :=
  let s := strip text in
  if TEXT_CAP <? length s
  then rstrip (firstn TEXT_CAP s) ++ TRUNCATION_MARKER
  else s.

(** ** A runtime to run the model on

    A small stand-in for the interpreter and the network, used to evaluate
    the model on concrete requests: ASCII case folding, decimal integers,
    dotted-quad IPv4 addresses with the special-purpose ranges of the
    [ipaddress] module, URLs of the shape [scheme://host/path], and a handful
    of hosts and pages. *)

Module Fixture.

Definition lower_char (c : N) : N :=
  if ((65 <=? c) && (c <=? 90))%N then (c + 32)%N else c.

Definition lower (s : str) : str := List.map lower_char s.

Definition digit (c : N) : option N :=
  if ((48 <=? c) && (c <=? 57))%N then Some (c - 48)%N else None.

Fixpoint decimal_from (acc : N) (s : str) : option N :=
  match s with
  | [] => Some acc
  | c :: s' =>
      match digit c with
      | Some d => decimal_from (10 * acc + d) s'
      | None => None
      end
  end.

Definition decimal (s : str) : option N :=
  match s with
  | [] => None
  | _ :: _ => decimal_from 0 s
  end.

Definition int_of_str (s : str) : option Z :=
  option_map Z.of_N (decimal (strip s)).

(** The pieces of [s] between the occurrences of the character [sep]. *)
Fixpoint split_char (sep : N) (s : str) : list str :=
  match s with
  | [] => [[]]
  | c :: s' =>
      if (c =? sep)%N then [] :: split_char sep s'
      else match split_char sep s' with
           | [] => [[c]]
           | p :: ps => (c :: p) :: ps
           end
  end.

Definition octet (s : str) : option N :=
  match s, decimal s with
  | 48%N :: _ :: _, _ => None
  | _, Some n => if ((n <=? 255) && (N.of_nat (length s) <=? 3))%N then Some n else None
  | _, None => None
  end.

Definition ip_address (s : str) : option ip_addr :=
  match List.map octet (split_char 46 s) with
  | [Some a; Some b; Some c; Some d] =>
      Some (IPv4Address (((a * 256 + b) * 256 + c) * 256 + d))
  | _ => None
  end.

(** [n] lies in the network [base/len]. *)
Definition in_net (n base : N) (len : N) : bool :=
  (N.shiftr n (32 - len) =? N.shiftr base (32 - len))%N.

Definition ipv4 (a b c d : N) : N := (((a * 256 + b) * 256 + c) * 256 + d)%N.

Definition private_networks : list (N * N) :=
  [ (ipv4 0 0 0 0, 8); (ipv4 10 0 0 0, 8); (ipv4 127 0 0 0, 8);
    (ipv4 169 254 0 0, 16); (ipv4 172 16 0 0, 12); (ipv4 192 0 0 0, 29);
    (ipv4 192 0 0 170, 31); (ipv4 192 0 2 0, 24); (ipv4 192 168 0 0, 16);
    (ipv4 198 18 0 0, 15); (ipv4 198 51 100 0, 24); (ipv4 203 0 113 0, 24);
    (ipv4 240 0 0 0, 4); (ipv4 255 255 255 255, 32) ]%N.

Definition is_global (a : ip_addr) : bool :=
  match a with
  | IPv4Address n =>
      negb (in_net n (ipv4 100 64 0 0) 10)
      && negb (existsb (fun net => in_net n (fst net) (snd net)) private_networks)
  | IPv6Address _ _ => false
  end.

(** [s] cut at the first character satisfying [stop]. *)
Fixpoint take_until (stop : N -> bool) (s : str) : str :=
  match s with
  | [] => []
  | c :: s' => if stop c then [] else c :: take_until stop s'
  end.

(** The text after the first [://], with the text before it. *)
Fixpoint cut_scheme (acc : str) (s : str) : option (str * str) :=
  match s with
  | 58%N :: 47%N :: 47%N :: rest => Some (rev acc, rest)
  | c :: s' => cut_scheme (c :: acc) s'
  | [] => None
  end.

Definition is_delim (c : N) : bool := ((c =? 47) || (c =? 63) || (c =? 35))%N.
Definition is_special (c : N) : bool :=
  ((c =? 64) || (c =? 58) || (c =? 91) || (c =? 93))%N.

Definition urlparse (s : str) : option ParseResult :=
  match cut_scheme [] s with
  | None =>
      if existsb (N.eqb 58) s then None
      else Some {| scheme := []; netloc := []; username := None;
                   password := None; hostname := None; port := PortValue None |}
  | Some (sch, rest) =>
      let loc := take_until is_delim rest in
      if existsb is_special loc then None
      else Some {| scheme := lower sch; netloc := loc; username := None;
                   password := None;
                   hostname := if nonempty loc then Some (lower loc) else None;
                   port := PortValue None |}
  end.

(** A table keyed by strings. *)
Fixpoint assoc {A} (k : str) (table : list (str * A)) : option A :=
  match table with
  | [] => None
  | (k', v) :: rest => if str_eqb k k' then Some v else assoc k rest
  end.

(** The resolver: a public host, a host answering with a private address
    and a host answering with both; every other name fails to resolve. *)
Definition getaddrinfo (host : str) (port : Z) : option (list str) :=
  assoc host
    [ (py "example.com", [py "93.184.216.34"]);
      (py "intranet.example", [py "10.0.0.5"]);
      (py "mixed.example", [py "93.184.216.34"; py "192.168.1.1"]) ].

Definition latin_1 (data : bytes) : str :=
  List.map (fun b => N.of_nat (Byte.to_nat b)) data.

Definition codec_lookup (enc : str) : option (bytes -> DecodeOutcome) :=
  if str_eqb enc (py "latin-1") || str_eqb enc (py "ISO-8859-1")
  then Some (fun data => Decoded (latin_1 data))
  else if str_eqb enc (py "undefined")
  then Some (fun _ => DecodeRaises (py "UnicodeError"))
  else None.

(** The browser: one page it renders, one it times out on, one it fails
    on; it cannot be imported for any other URL. *)
Definition playwright (url : str) (timeout_ms : Z) : PWOutcome :=
  match assoc url
    [ (py "http://example.com/", PWContent (Some (py "<p>Hello</p>")));
      (py "http://example.com/slow", PWTimeout);
      (py "http://example.com/crash", PWError (py "net::ERR_ABORTED") (py "Error")) ] with
  | Some o => o
  | None => PWImportError
  end.

Definition hello_bytes : bytes :=
  [Byte.x3c; Byte.x70; Byte.x3e; Byte.x48; Byte.x69; Byte.x3c; Byte.x2f;
   Byte.x70; Byte.x3e].

Definition page (enc : option str) (chunks : list bytes) : GetOutcome :=
  GetResponse {| status_code := 200; body_chunks := chunks;
                 body_error := None; encoding := enc;
                 apparent_encoding := AttrRaises (py "RuntimeError") |}.

Definition session_get (url : str) (connect_timeout read_timeout : Z)
  : GetOutcome :=
  match assoc url
    [ (py "http://example.com/crash", page (Some (py "ISO-8859-1")) [hello_bytes]);
      (py "http://example.com/plain", page (Some (py "ISO-8859-1")) [hello_bytes; []; hello_bytes]);
      (py "http://example.com/odd", page (Some (py "x-unknown")) [hello_bytes]);
      (py "http://example.com/missing",
       GetResponse {| status_code := 404; body_chunks := []; body_error := None;
                      encoding := None; apparent_encoding := AttrValue None |}) ] with
  | Some o => o
  | None => GetTimeout
  end.

Definition rt : Runtime :=
  Build_Runtime lower int_of_str (fun _ => None) (fun _ => None) urlparse
    ip_address is_global getaddrinfo playwright session_get codec_lookup.

Definition cfg : Config := {|
  EXTRACT_API_KEY := Some (py " s3cret ");
  MAX_REDIRECTS := 5;
  MAX_HTML_BYTES := 5000000
|}.

Definition open_cfg : Config := {|
  EXTRACT_API_KEY := None;
  MAX_REDIRECTS := 5;
  MAX_HTML_BYTES := 5000000
|}.

Definition w0 : World := {| sock_default_timeout := None; calls := [] |}.

(** A request with the URL and the timeout in the query string. *)
Definition query_request : Request :=
  {| headers := ∅;
     query_params := {[ py "url" := py "http://example.com/";
                        py "timeout" := py "100" ]} |}.

(** What [urlparse] makes of [http://<host>/]. *)
Definition parsed_http (host : str) : ParseResult :=
  {| scheme := py "http"; netloc := host; username := None; password := None;
     hostname := Some host; port := PortValue None |}.

End Fixture.

(** ** Statements about the length cap *)

(** The number of whitespace characters that end the first [TEXT_CAP]
    characters of the trimmed text: what [rstrip] removes at the cut. *)
Definition trailing_ws_at_cut (text : str) : nat :=
  TEXT_CAP - length (rstrip (firstn TEXT_CAP (strip text))).

(** Truncating the truncation of [text] changes nothing. *)
Definition truncation_idempotent_at (text : str) : Prop :=
  _apply_limits (_apply_limits text) = _apply_limits text.

(** A text of more than [TEXT_CAP] characters is capped to exactly its first
    [TEXT_CAP] characters followed by the marker. *)
Definition capped_to_exact_prefix_at (text : str) : Prop :=
  TEXT_CAP < length text ->
  _apply_limits text = firstn TEXT_CAP text ++ TRUNCATION_MARKER.

(** Sample texts: [TEXT_CAP - 3] letters, three spaces and a letter;
    [TEXT_CAP - 1] letters, a space and a letter; [TEXT_CAP + 1] letters. *)
Definition text_three_spaces_at_cut : str :=
  repeat 97%N (TEXT_CAP - 3) ++ [32; 32; 32; 98]%N.

Definition text_space_at_cut : str :=
  repeat 97%N (TEXT_CAP - 1) ++ [32; 98]%N.

Definition text_letters : str := repeat 97%N (TEXT_CAP + 1).

(** ** Notions used to reason about blocks *)

(** [s] contains the separator of blocks, two newlines in a row. *)
Fixpoint has_nn (s : str) : bool :=
  match s with
  | [] => false
  | c :: s' =>
      match s' with
      | [] => false
      | d :: _ => (c =? NL)%N && (d =? NL)%N || has_nn s'
      end
  end.

(** A block as [_dedupe_blocks] emits it: not empty, trimmed, and without
    the separator inside. *)
Definition is_block (b : str) : Prop :=
  b <> [] /\ trimmed isspace b /\ has_nn b = false.

(** The blocks the loop of [_dedupe_blocks] keeps, written by recursion on
    the list of blocks, [sn] being the keys seen so far. *)
Fixpoint kept_blocks (rt : Runtime) (sn : gset str) (blocks : list str)
  : list str :=
  match blocks with
  | [] => []
  | b :: rest =>
      if negb (nonempty b) then kept_blocks rt sn rest
      else if negb (nonempty (block_key rt b))
              || bool_decide (block_key rt b ∈ sn)
      then kept_blocks rt sn rest
      else b :: kept_blocks rt ({[block_key rt b]} ∪ sn) rest
  end.

(** ** Statements about timeouts, validation and fetching *)

(** [clamp(x, lo, hi)] and the effective timeout of a request, in the words
    of the specification. *)
Definition clamp (x lo hi : Z) : Z :=
  if (x <? lo)%Z then lo else if (hi <? x)%Z then hi else x.

Definition FetchBudget_effective (requested : Z) : Z :=
  Z.min 60 (clamp requested 1 180).

(** The requested timeout, 15 when absent or unparseable. *)
Definition requested_or_default (rt : Runtime) (raw : PyVal) : Z :=
  match py_int rt raw with Some t => t | None => 15%Z end.

(** The timeout a request asks for: that of the query string when the query
    string carries the URL; otherwise that of the JSON object, overridden by
    one found in the body text when the object carries no URL. *)
Definition requested_timeout (rt : Runtime) (request : Request)
    (body_json : BodyJson) (body_text : str) : Z :=
  if nonempty (strip (or_empty (query_params request !! py "url")))
  then requested_or_default rt (param_get (query_params request) (py "timeout"))
  else
    let json_url :=
      match body_json with BodyDict d => dict_get d (py "url") | BodyOther => PyNone end in
    let json_timeout :=
      match body_json with
      | BodyDict d => requested_or_default rt (dict_get d (py "timeout"))
      | BodyOther => 15%Z
      end in
    if py_truthy json_url then json_timeout
    else
      match _extract_url_and_timeout_from_text rt body_text with
      | Ok (_, Some t) => t
      | _ => json_timeout
      end.

(** A world with one more call. *)
Definition with_call (w : World) (ev : Event) : World :=
  {| sock_default_timeout := sock_default_timeout w; calls := calls w ++ [ev] |}.

(** The checks [_validate_public_http_url] makes on the parsed URL before it
    looks at what the host is. *)
Definition passes_syntax_checks (rt : Runtime) (p : ParseResult) : bool :=
  (str_eqb (scheme p) (py "http") || str_eqb (scheme p) (py "https"))
  && nonempty (netloc p) && negb (truthy (username p))
  && negb (truthy (password p)) && nonempty (checked_hostname rt p).

(** The calls a run added to the world. *)
Definition new_calls (w w' : World) : list Event :=
  skipn (length (calls w)) (calls w').

(** The default timeout a resolver call ran under. *)
Definition resolver_timeouts (evs : list Event) : list (option Z) :=
  flat_map (fun ev =>
              match ev with
              | EvGetAddrInfo _ _ d => [d]
              | _ => []
              end) evs.

(** C3 as stated: validation leaves the default timeout as it found it, at
    the end and also while the resolver runs. *)
Definition default_timeout_untouched (rt : Runtime) (raw_url : str)
    (timeout_s : Z) (w : World) : Prop :=
  let w' := snd (_validate_public_http_url rt raw_url timeout_s w) in
  sock_default_timeout w' = sock_default_timeout w /\
  Forall (fun d => d = sock_default_timeout w) (resolver_timeouts (new_calls w w')).

(** The host of a parsed URL is a domain name: neither a literal address nor
    one of the local names. *)
Definition is_domain_name (rt : Runtime) (p : ParseResult) : Prop :=
  ip_address rt (checked_hostname rt p) = None /\
  is_local_name (checked_hostname rt p) = false.

(** The exception is the one a timed-out fetch raises: an [HTTPException]
    with status 504. *)
Definition is_timeout (e : exn) : bool :=
  match e with
  | HTTPException code _ => (code =? 504)%Z
  | PyError _ => false
  end.

(** The number of bytes in a list of chunks. *)
Definition total_length (chunks : list bytes) : Z :=
  Z.of_nat (length (concat chunks)).

(** ** Further notions *)

(** The only whitespace in [s] is the space character, and no two spaces
    are adjacent: what [re.sub(r"\s+", " ", ...)] leaves. *)
Fixpoint single_spaced (s : str) : bool :=
  match s with
  | [] => true
  | c :: s' =>
      (negb (isspace c) || (c =? 32)%N)
      && (negb (isspace c) || clean_head isspace s')
      && single_spaced s'
  end.

(** The status of an [HTTPException] is one of those a fetch gives: 502 or
    504; other exceptions pass. *)
Definition fetch_status_ok (e : exn) : bool :=
  match e with
  | HTTPException code _ => (code =? 502)%Z || (code =? 504)%Z
  | PyError _ => true
  end.

(** The chunks that are not empty. *)
(** The URL that the scan of a text finds, whatever becomes of the
    timeout: [raw_url] of [_extract_url_and_timeout_from_text]. *)
Definition text_url (rt : Runtime) (text : str) : option str :=
  if negb (nonempty (strip text)) then None
  else option_map strip (re_search_url rt (strip text)).

Definition nonempty_chunks (chunks : list bytes) : list bytes :=
  List.filter (fun chunk => match chunk with [] => false | _ :: _ => true end) chunks.

(** [blocks = [b.strip() for b in text.split("\n\n")]] *)
Definition input_blocks (text : str) : list str :=
  List.map strip (split_nn text).

(** A response whose stream breaks after its first chunk, and a runtime in
    which every request is answered by it. *)
Definition broken_response : Response :=
  {| status_code := 200;
     body_chunks := [Fixture.hello_bytes];
     body_error := Some (py "ChunkedEncodingError");
     encoding := None;
     apparent_encoding := AttrValue None |}.

Definition rt_broken_stream : Runtime :=
  Build_Runtime Fixture.lower Fixture.int_of_str (fun _ => None)
    (fun _ => None) Fixture.urlparse Fixture.ip_address Fixture.is_global
    Fixture.getaddrinfo Fixture.playwright
    (fun _ _ _ => GetResponse broken_response) Fixture.codec_lookup.

(** ** Text normalisation: lines, code blocks, lead line *)

(** [s.replace("\r\n", "\n")] and [s.replace("\r", "\n")] *)
Fixpoint replace_crlf (s : str) : str :=
  match s with
  | [] => []
  | c :: s' =>
      match s' with
      | d :: s'' =>
          if (c =? 13)%N && (d =? 10)%N then NL :: replace_crlf s''
          else c :: replace_crlf s'
      | [] => [c]
      end
  end.

Definition replace_cr (s : str) : str :=
  List.map (fun c => if (c =? 13)%N then NL else c) s.

Definition normalize_newlines (s : str) : str := replace_cr (replace_crlf s).

(** [s.split("\n")] *)
Fixpoint split_lines (s : str) : list str :=
  match s with
  | [] => [[]]
  | c :: s' =>
      if (c =? NL)%N then [] :: split_lines s'
      else match split_lines s' with
           | [] => [[c]]
           | p :: ps => (c :: p) :: ps
           end
  end.

(** ["\n".join(lines)] and [" ".join(parts)] *)
Fixpoint join_with (sep : N) (parts : list str) : str :=
  match parts with
  | [] => []
  | [b] => b
  | b :: rest => b ++ sep :: join_with sep rest
  end.

(** A space or a tab: the class [[ \t]]. *)
Definition is_blank (c : N) : bool := ((c =? 32) || (c =? 9))%N.

(** [re.sub(r"[ \t]+", " ", s)] *)
Fixpoint collapse_blanks_from (in_run : bool) (s : str) : str :=
  match s with
  | [] => []
  | c :: s' =>
      if is_blank c
      then (if in_run then collapse_blanks_from true s'
            else 32%N :: collapse_blanks_from true s')
      else c :: collapse_blanks_from false s'
  end.

Definition collapse_blanks (s : str) : str := collapse_blanks_from false s.

(** [re.sub(r"\n{3,}", "\n\n", s)]: of a run of newlines only the first two
    stay; [run] counts the newlines just passed, up to 2. *)
Fixpoint squeeze_newlines_from (run : nat) (s : str) : str :=
  match s with
  | [] => []
  | c :: s' =>
      if (c =? NL)%N
      then match run with
           | S (S _) => squeeze_newlines_from 2 s'
           | _ => c :: squeeze_newlines_from (S run) s'
           end
      else c :: squeeze_newlines_from 0 s'
  end.

Definition squeeze_newlines (s : str) : str := squeeze_newlines_from 0 s.

(** [re.sub(r"[ \t]+\n", "\n", s)]: a run of blanks that a newline follows
    goes; [pending] holds the blanks passed since the last other
    character. *)
Fixpoint drop_blanks_before_newline_from (pending : str) (s : str) : str :=
  match s with
  | [] => pending
  | c :: s' =>
      if is_blank c then drop_blanks_before_newline_from (pending ++ [c]) s'
      else if (c =? NL)%N then c :: drop_blanks_before_newline_from [] s'
      else pending ++ c :: drop_blanks_before_newline_from [] s'
  end.

Definition drop_blanks_before_newline (s : str) : str :=
  drop_blanks_before_newline_from [] s.

(** [re.match(r"^(\t| {4,})\S", line)]: a tab and then a character that is
    not whitespace, or four spaces or more and then such a character. *)
Fixpoint leading_spaces (s : str) : nat * str :=
  match s with
  | 32%N :: s' => let (n, rest) := leading_spaces s' in (S n, rest)
  | _ => (0, s)
  end.

Definition is_code_line (line : str) : bool :=
  match line with
  | 9%N :: c :: _ => negb (isspace c)
  | _ =>
      match leading_spaces line with
      | (n, c :: _) => (4 <=? n) && negb (isspace c)
      | (_, []) => false
      end
  end.

(** [while out and out[-1] == "": out.pop()]: the empty strings at the end
    of [out] go. *)
Fixpoint drop_leading_empty (l : list str) : list str :=
  match l with
  | [] :: l' => drop_leading_empty l'
  | _ => l
  end.

Definition pop_blank_lines (out : list str) : list str :=
  rev_append (drop_leading_empty (rev_append out [])) [].

Record FormatState : Type := {
  fmt_out : list str;
  in_code : bool
}.

(** One turn of the loop of [_format_code_blocks]. *)
Definition format_step (st : FormatState) (line : str) : FormatState :=
  let is_code := is_code_line line in
  let st1 :=
    if is_code && negb (in_code st) then
      let popped := pop_blank_lines (fmt_out st) in
      {| fmt_out := match popped with [] => [] | _ :: _ => popped ++ [[]] end;
         in_code := true |}
    else st in
  let st2 :=
    if negb is_code && in_code st1 then
      {| fmt_out := pop_blank_lines (fmt_out st1) ++ [[]]; in_code := false |}
    else st1 in
  if in_code st2
  then {| fmt_out := fmt_out st2 ++ [rstrip line]; in_code := in_code st2 |}
  else {| fmt_out := fmt_out st2 ++ [collapse_blanks (strip line)];
          in_code := in_code st2 |}.

Definition _format_code_blocks (text : str) : str :=
  let lines := split_lines (normalize_newlines text) in
  let st := fold_left format_step lines {| fmt_out := []; in_code := false |} in
  let out :=
    if in_code st then pop_blank_lines (fmt_out st) ++ [[]] else fmt_out st in
  let merged := join_with NL out in
  let merged := squeeze_newlines merged in
  let merged := drop_blanks_before_newline merged in
  strip merged.

(** The labels of the lead line, U+4F5C U+8005 U+FF1A and
    U+53D1 U+5E03 U+65F6 U+95F4 U+FF1A. *)
Definition AUTHOR_LABEL : str := [20316; 32773; 65306]%N.
Definition DATE_LABEL : str := [21457; 24067; 26102; 38388; 65306]%N.

Definition _build_lead (author date : option str) : str :=
  let a := strip (or_empty author) in
  let d := strip (or_empty date) in
  let parts := (if nonempty a then [AUTHOR_LABEL ++ a] else [])
               ++ (if nonempty d then [DATE_LABEL ++ d] else []) in
  strip (join_with 32 parts).

(** Three newlines in a row. *)
Fixpoint has_nnn (s : str) : bool :=
  match s with
  | c :: s' =>
      match s' with
      | d :: e :: _ => (c =? NL)%N && (d =? NL)%N && (e =? NL)%N || has_nnn s'
      | _ => false
      end
  | [] => false
  end.

(** A blank directly before a newline. *)
Fixpoint blank_then_nl (s : str) : bool :=
  match s with
  | c :: s' =>
      match s' with
      | d :: _ => is_blank c && (d =? NL)%N || blank_then_nl s'
      | [] => false
      end
  | [] => false
  end.

(** The number of newlines [s] begins with. *)
Fixpoint leading_nls (s : str) : nat :=
  match s with
  | c :: s' => if (c =? NL)%N then S (leading_nls s') else 0
  | [] => 0
  end.

(** A line as the loop of [_format_code_blocks] emits it: without newline
    inside and without blank at its end. *)
Definition line_ok (line : str) : Prop :=
  Forall (fun c => c <> NL) line /\ clean_last is_blank line = true.

(** ** The fallback HTML-to-text converter *)

(** What [HTMLParser.feed] and [close] hand to the handlers of
    [_HTMLToTextParser], in order: start tags, end tags and text (character
    references already converted). *)
Inductive HtmlToken : Type :=
| StartTag (tag : str)
| EndTag (tag : str)
| TextData (data : str).

Record ParserState : Type := {
  parts : list str;
  skip_depth : Z;
  in_pre : bool
}.

Definition parser_init : ParserState :=
  {| parts := []; skip_depth := 0; in_pre := false |}.

(** ["".join(self.parts)] *)
Definition buffer (st : ParserState) : str := concat (parts st).

Definition _append (st : ParserState) (s : str) : ParserState :=
  if negb (nonempty s) then st
  else {| parts := parts st ++ [s]; skip_depth := skip_depth st;
          in_pre := in_pre st |}.

Definition _ensure_paragraph_break (st : ParserState) : ParserState :=
  let cur := buffer st in
  if negb (nonempty cur) then st
  else if endswith cur [NL; NL] then st
  else if endswith cur [NL] then _append st [NL]
  else _append st [NL; NL].

Definition _newline (st : ParserState) : ParserState :=
  let cur := buffer st in
  if negb (nonempty cur) || endswith cur [NL] then _append st [NL]
  else _append st [NL].

(** [t in {...}] *)
Definition in_tags (t : str) (tags : list str) : bool :=
  existsb (str_eqb t) tags.

Definition SKIP_TAGS : list str := [py "script"; py "style"; py "noscript"].

Definition BLOCK_START_TAGS : list str :=
  [py "p"; py "div"; py "section"; py "article"; py "main"; py "header";
   py "footer"; py "nav"; py "aside"; py "h1"; py "h2"; py "h3"; py "h4";
   py "h5"; py "h6"; py "blockquote"].

Definition BLOCK_END_TAGS : list str :=
  [py "p"; py "div"; py "section"; py "article"; py "main"; py "header";
   py "footer"; py "nav"; py "aside"; py "blockquote"; py "li"].

Definition set_in_pre (st : ParserState) (b : bool) : ParserState :=
  {| parts := parts st; skip_depth := skip_depth st; in_pre := b |}.

Definition set_skip_depth (st : ParserState) (d : Z) : ParserState :=
  {| parts := parts st; skip_depth := d; in_pre := in_pre st |}.

Section Parser.

Variable rt : Runtime.

Definition handle_starttag (st : ParserState) (tag : str) : ParserState :=
  let t := str_lower rt tag in
  if in_tags t SKIP_TAGS then set_skip_depth st (skip_depth st + 1)
  else if negb (skip_depth st =? 0)%Z then st
  else if in_tags t BLOCK_START_TAGS then _ensure_paragraph_break st
  else if str_eqb t (py "br") then _newline st
  else if str_eqb t (py "li") then _append (_newline st) (py "- ")
  else if str_eqb t (py "pre") then set_in_pre (_ensure_paragraph_break st) true
  else st.

Definition handle_endtag (st : ParserState) (tag : str) : ParserState :=
  let t := str_lower rt tag in
  if in_tags t SKIP_TAGS && negb (skip_depth st =? 0)%Z
  then set_skip_depth st (skip_depth st - 1)
  else if negb (skip_depth st =? 0)%Z then st
  else if str_eqb t (py "pre")
  then _ensure_paragraph_break (set_in_pre st false)
  else if in_tags t BLOCK_END_TAGS then _ensure_paragraph_break st
  else st.

(** One turn of the loop over the lines of preformatted text. *)
Definition pre_line (raw : str) (st : ParserState) (ln : str) : ParserState :=
  if negb (nonempty ln) && endswith raw [NL] then _append st [NL]
  else
    let st := if nonempty (strip ln) then _append st (py "    " ++ rstrip ln)
              else st in
    _append st [NL].

Definition handle_data (st : ParserState) (data : str) : ParserState :=
  if negb (skip_depth st =? 0)%Z then st
  else if negb (nonempty data) then st
  else if in_pre st then
    let raw := normalize_newlines data in
    fold_left (pre_line raw) (split_lines raw) st
  else
    let s := strip (collapse_ws data) in
    if negb (nonempty s) then st
    else
      let cur := buffer st in
      if negb (nonempty cur) || endswith cur [NL] || endswith cur [32%N]
      then _append st s
      else _append st (32%N :: s).

Definition handle_token (st : ParserState) (tok : HtmlToken) : ParserState :=
  match tok with
  | StartTag tag => handle_starttag st tag
  | EndTag tag => handle_endtag st tag
  | TextData data => handle_data st data
  end.

(** The token opens or closes a [script], [style] or [noscript] element. *)
Definition is_skip_token (tok : HtmlToken) : bool :=
  match tok with
  | StartTag tag | EndTag tag => in_tags (str_lower rt tag) SKIP_TAGS
  | TextData _ => false
  end.

End Parser.

(** ** Extraction *)

(** The metadata object of trafilatura, with [str(meta.date)] for its
    date. *)
Record Metadata : Type := {
  meta_title : option str;
  meta_author : option str;
  meta_date : option str
}.

Inductive MetaOutcome : Type :=
| MetaRaises
| MetaValue (meta : option Metadata).

(** What the block that calls trafilatura meets: an exception before the
    text is known, or the extracted text and then the outcome of
    [extract_metadata]. *)
Inductive TrafOutcome : Type :=
| TrafRaises
| TrafExtracted (extracted : option str) (meta : MetaOutcome).

(** What the block that calls readability meets: an exception before the
    title is known, one after it, or the title and the summary. *)
Inductive ReadOutcome : Type :=
| ReadRaises
| ReadTitleOnly (short_title : option str)
| ReadDocument (short_title : option str) (summary : option str).

Record Extractors : Type := {
  (** the tokens [HTMLParser] makes of a fragment *)
  html_tokens : str -> list HtmlToken;
  (** group 1 of the first match of the title pattern *)
  re_search_title : str -> option str;
  (** [html.unescape] *)
  html_unescape : str -> str;
  trafilatura_run : str -> TrafOutcome;
  readability_run : str -> ReadOutcome;
  (** [body_bytes.decode("utf-8", errors="ignore")] *)
  decode_utf8_ignore : bytes -> str;
  (** [json.loads], anything but an object being of no use *)
  json_loads : str -> BodyJson
}.

Record ExtractResponse : Type := {
  resp_url : str;
  resp_title : str;
  resp_text : str
}.

(** The placeholder title, U+539F U+6587 U+5FEB U+7167. *)
Definition UNTITLED : str := [21407; 25991; 24555; 29031]%N.

Section Extract.

Variable rt : Runtime.
Variable cfg : Config.
Variable ex : Extractors.

Definition _html_fragment_to_text (fragment_html : option str) : str :=
  let tokens := html_tokens ex (or_empty fragment_html) in
  let parser := fold_left (handle_token rt) tokens parser_init in
  strip (squeeze_newlines (buffer parser)).

Definition _extract_html_title (html : str) : str :=
  match re_search_title ex html with
  | None => []
  | Some group =>
      firstn 300 (strip (collapse_ws (html_unescape ex group)))
  end.

(** The fields [extract] collects. *)
Record Fields : Type := {
  f_title : str;
  f_text : str;
  f_author : str;
  f_date : str
}.

(** The block that calls trafilatura. *)
Definition from_trafilatura (html : str) : Fields :=
  match trafilatura_run ex html with
  | TrafRaises => {| f_title := []; f_text := []; f_author := []; f_date := [] |}
  | TrafExtracted extracted meta =>
      let text := if truthy extracted then strip (or_empty extracted) else [] in
      match meta with
      | MetaValue (Some m) =>
          {| f_title := if truthy (meta_title m)
                        then strip (or_empty (meta_title m)) else [];
             f_text := text;
             f_author := if truthy (meta_author m)
                         then strip (or_empty (meta_author m)) else [];
             f_date := if truthy (meta_date m)
                       then strip (or_empty (meta_date m)) else [] |}
      | _ => {| f_title := []; f_text := text; f_author := []; f_date := [] |}
      end
  end.

(** The block that calls readability, entered when there is no text yet. *)
Definition from_readability (html : str) (fs : Fields) : Fields :=
  let with_title (t : option str) : str :=
    if nonempty (f_title fs) then f_title fs else strip (or_empty t) in
  match readability_run ex html with
  | ReadRaises => fs
  | ReadTitleOnly t =>
      {| f_title := with_title t; f_text := f_text fs;
         f_author := f_author fs; f_date := f_date fs |}
  | ReadDocument t summary =>
      {| f_title := with_title t; f_text := _html_fragment_to_text summary;
         f_author := f_author fs; f_date := f_date fs |}
  end.

(** From the HTML to the response: the part of [extract] after the fetch. *)
Definition extract_from_html (url html : str) : result ExtractResponse :=
  let fs := from_trafilatura html in
  let fs := if negb (nonempty (f_text fs)) then from_readability html fs else fs in
  let title :=
    if negb (nonempty (f_title fs)) then
      (if nonempty (_extract_html_title html) then _extract_html_title html
       else UNTITLED)
    else f_title fs in
  if negb (nonempty (f_text fs))
  then Raise (HTTPException 422 (py "extract failed"))
  else
    let lead := _build_lead (Some (f_author fs)) (Some (f_date fs)) in
    let formatted := _format_code_blocks (f_text fs) in
    let formatted := _dedupe_blocks rt formatted in
    let formatted := _apply_limits formatted in
    let formatted :=
      if nonempty lead
      then _apply_limits (strip (lead ++ NL :: NL :: formatted))
      else formatted in
    if negb (nonempty formatted)
    then Raise (HTTPException 422 (py "extract failed"))
    else Ok {| resp_url := url; resp_title := title; resp_text := formatted |}.

(** The body as text and as JSON: both empty-handed for an empty body. *)
Definition request_body_text (body_bytes : bytes) : str :=
  match body_bytes with
  | [] => []
  | _ :: _ => decode_utf8_ignore ex body_bytes
  end.

Definition request_body_json (body_bytes : bytes) : BodyJson :=
  match body_bytes with
  | [] => BodyOther
  | _ :: _ => json_loads ex (request_body_text body_bytes)
  end.

Definition extract (request : Request) (body_bytes : bytes) : M ExtractResponse :=
  lift (_check_api_key cfg request) ;;;
  let body_text := request_body_text body_bytes in
  let body_json := request_body_json body_bytes in
  input <- _extract_input rt request body_json body_text ;;
  html <- _fetch_html_best_effort rt cfg (fst input) (snd input) ;;
  lift (extract_from_html (fst input) html).

End Extract.

(** An event is a call of the browser ([page.goto]) or of the HTTP client
    ([session.get]) with [url] as its argument.  The event says what the
    service asks for: where the browser navigates from there, and which
    redirects the client follows, is not part of it. *)
Definition called_with (url : str) (ev : Event) : Prop :=
  match ev with
  | EvGetAddrInfo _ _ _ => False
  | EvPlaywright u _ => u = url
  | EvSessionGet u _ _ => u = url
  end.

Definition is_fetch_call (ev : Event) : bool :=
  match ev with
  | EvGetAddrInfo _ _ _ => false
  | _ => true
  end.

(** Extractors that find nothing but a title, and a request with the right
    key. *)
Definition ex_readability : Extractors :=
  {| html_tokens := fun _ => [StartTag (py "p"); TextData (py "Hello");
                              EndTag (py "p")];
     re_search_title := fun _ => Some (py " Hi  there ");
     html_unescape := fun s => s;
     trafilatura_run := fun _ => TrafRaises;
     readability_run := fun _ => ReadDocument None (Some (py "<p>Hello</p>"));
     decode_utf8_ignore := fun _ => [];
     json_loads := fun _ => BodyOther |}.

Definition keyed_request : Request :=
  {| headers := {[ py "x-api-key" := py "s3cret" ]};
     query_params := {[ py "url" := py "http://example.com/" ]} |}.

(** * Properties *)

(** ** Stripping *)

Section Strip.

Variable f : N -> bool.

Lemma lstrip_by_clean (s : str) : clean_head f (lstrip_by f s) = true.
Proof.
  induction s as [|c s IH]; simpl; [reflexivity|].
  destruct (f c) eqn:E; [exact IH|]. simpl. now rewrite E.
Qed.

Lemma lstrip_by_id (s : str) : clean_head f s = true -> lstrip_by f s = s.
Proof.
  destruct s as [|c s]; simpl; [reflexivity|].
  intros H. apply negb_true_iff in H. now rewrite H.
Qed.

Lemma lstrip_by_split (s : str) :
  exists w, s = w ++ lstrip_by f s /\ forallb f w = true.
Proof.
  induction s as [|c s [w [E A]]]; simpl.
  - exists []. split; reflexivity.
  - destruct (f c) eqn:Ec.
    + exists (c :: w). simpl. rewrite Ec, A. split; [now f_equal|reflexivity].
    + exists []. split; reflexivity.
Qed.

Lemma lstrip_by_all (w s : str) :
  forallb f w = true -> lstrip_by f (w ++ s) = lstrip_by f s.
Proof.
  induction w as [|c w IH]; simpl; [reflexivity|].
  intros H. apply andb_true_iff in H as [Hc Hw]. rewrite Hc. auto.
Qed.

Lemma lstrip_by_app_clean (s t : str) :
  t <> [] -> clean_head f t = true -> lstrip_by f (s ++ t) = lstrip_by f s ++ t.
Proof.
  intros Hne Hc. induction s as [|c s IH]; simpl.
  - now apply lstrip_by_id.
  - destruct (f c); [exact IH|reflexivity].
Qed.

Lemma rstrip_by_rev (s : str) : rstrip_by f s = rev (lstrip_by f (rev s)).
Proof. unfold rstrip_by. now rewrite <- !rev_alt. Qed.

Lemma clean_last_rev (s : str) : clean_last f s = clean_head f (rev s).
Proof. unfold clean_last. now rewrite <- rev_alt. Qed.

Lemma rstrip_by_clean (s : str) : clean_last f (rstrip_by f s) = true.
Proof.
  rewrite clean_last_rev, rstrip_by_rev, rev_involutive. apply lstrip_by_clean.
Qed.

Lemma rstrip_by_id (s : str) : clean_last f s = true -> rstrip_by f s = s.
Proof.
  rewrite clean_last_rev, rstrip_by_rev. intros H.
  rewrite lstrip_by_id by exact H. apply rev_involutive.
Qed.

Lemma rstrip_by_split (s : str) :
  exists w, s = rstrip_by f s ++ w /\ forallb f w = true.
Proof.
  destruct (lstrip_by_split (rev s)) as [w [E A]].
  exists (rev w). split.
  - rewrite rstrip_by_rev, <- rev_app_distr, <- E. now rewrite rev_involutive.
  - rewrite forallb_forall in *. intros x Hx. apply A. now apply in_rev.
Qed.

Lemma rstrip_by_all (s w : str) :
  forallb f w = true -> rstrip_by f (s ++ w) = rstrip_by f s.
Proof.
  intros A. rewrite !rstrip_by_rev, rev_app_distr, lstrip_by_all; [reflexivity|].
  rewrite forallb_forall in *. intros x Hx. apply A. now apply in_rev.
Qed.

Lemma clean_last_app (s t : str) :
  t <> [] -> clean_last f t = true -> clean_last f (s ++ t) = true.
Proof.
  rewrite !clean_last_rev; intros Hne H. rewrite rev_app_distr.
  destruct (rev t) as [|c r] eqn:E.
  - apply (f_equal (@rev N)) in E. rewrite rev_involutive in E. now subst.
  - exact H.
Qed.

Lemma clean_head_app (s t : str) :
  s <> [] -> clean_head f s = true -> clean_head f (s ++ t) = true.
Proof. destruct s; [congruence|]. intros _ H. exact H. Qed.

Lemma rstrip_by_cons_clean (c : N) (s : str) :
  f c = false -> rstrip_by f (c :: s) = c :: rstrip_by f s.
Proof.
  intros Hc. rewrite !rstrip_by_rev. simpl.
  rewrite lstrip_by_app_clean; [| discriminate | simpl; now rewrite Hc].
  rewrite rev_app_distr. reflexivity.
Qed.

Lemma rstrip_by_clean_head (s : str) :
  clean_head f s = true -> clean_head f (rstrip_by f s) = true.
Proof.
  destruct s as [|c s]; [reflexivity|]. simpl. intros H.
  apply negb_true_iff in H. rewrite rstrip_by_cons_clean by exact H.
  simpl. now rewrite H.
Qed.

Lemma rstrip_by_nonempty (s : str) :
  s <> [] -> clean_head f s = true -> rstrip_by f s <> [].
Proof.
  destruct s as [|c s]; [congruence|]. simpl. intros _ H.
  apply negb_true_iff in H. rewrite rstrip_by_cons_clean by exact H.
  discriminate.
Qed.

Lemma strip_by_trimmed (s : str) : trimmed f (strip_by f s).
Proof.
  split.
  - apply rstrip_by_clean_head, lstrip_by_clean.
  - apply rstrip_by_clean.
Qed.

Lemma strip_by_id (s : str) : trimmed f s -> strip_by f s = s.
Proof.
  intros [Hh Hl]. unfold strip_by.
  rewrite lstrip_by_id by exact Hh. now apply rstrip_by_id.
Qed.

Lemma strip_by_idem (s : str) : strip_by f (strip_by f s) = strip_by f s.
Proof. apply strip_by_id, strip_by_trimmed. Qed.

Lemma rstrip_by_length (s : str) : length (rstrip_by f s) <= length s.
Proof.
  destruct (rstrip_by_split s) as [w [E _]].
  rewrite E at 2. rewrite length_app. lia.
Qed.

Lemma trimmed_app (s t : str) :
  s <> [] -> t <> [] -> clean_head f s = true -> clean_last f t = true ->
  trimmed f (s ++ t).
Proof.
  intros. split; [now apply clean_head_app | now apply clean_last_app].
Qed.

End Strip.

(** The same for whitespace. *)

Lemma strip_idem (s : str) : strip (strip s) = strip s.
Proof. apply strip_by_idem. Qed.

Lemma strip_trimmed (s : str) : trimmed isspace (strip s).
Proof. apply strip_by_trimmed. Qed.

Lemma strip_id (s : str) : trimmed isspace s -> strip s = s.
Proof. apply strip_by_id. Qed.

Lemma rstrip_id (s : str) : clean_last isspace s = true -> rstrip s = s.
Proof. apply rstrip_by_id. Qed.

Lemma rstrip_all (s w : str) :
  forallb isspace w = true -> rstrip (s ++ w) = rstrip s.
Proof. apply rstrip_by_all. Qed.

Lemma rstrip_split (s : str) :
  exists w, s = rstrip s ++ w /\ forallb isspace w = true.
Proof. apply rstrip_by_split. Qed.

Lemma strip_of_clean_head (s : str) :
  clean_head isspace s = true -> strip s = rstrip s.
Proof. intros H. unfold strip, strip_by. now rewrite lstrip_by_id. Qed.

(** ** Length cap *)

Lemma TEXT_CAP_pos : 0 < TEXT_CAP.
Proof. unfold TEXT_CAP. lia. Qed.

Lemma marker_length : length TRUNCATION_MARKER = 11.
Proof. reflexivity. Qed.

Lemma marker_clean_last : clean_last isspace TRUNCATION_MARKER = true.
Proof. reflexivity. Qed.

Lemma marker_prefix_ws (k : nat) :
  k <= 2 -> forallb isspace (firstn k TRUNCATION_MARKER) = true.
Proof.
  intros H. destruct k as [|[|[|k]]]; [reflexivity..|lia].
Qed.

Lemma marker_prefix_ink (k : nat) :
  3 <= k -> k <= 10 ->
  firstn k TRUNCATION_MARKER <> [] /\
  clean_last isspace (firstn k TRUNCATION_MARKER) = true /\
  length (firstn k TRUNCATION_MARKER) = k.
Proof.
  intros H3 H10.
  do 11 (destruct k as [|k]; [first [lia | (split; [discriminate|split; reflexivity])]|]).
  lia.
Qed.

Lemma apply_limits_short (text : str) :
  length (strip text) <= TEXT_CAP -> _apply_limits text = strip text.
Proof.
  intros H. unfold _apply_limits.
  destruct (Nat.ltb_spec TEXT_CAP (length (strip text))); [lia|reflexivity].
Qed.

Lemma apply_limits_long (text : str) :
  TEXT_CAP < length (strip text) ->
  _apply_limits text =
  rstrip (firstn TEXT_CAP (strip text)) ++ TRUNCATION_MARKER.
Proof.
  intros H. unfold _apply_limits.
  destruct (Nat.ltb_spec TEXT_CAP (length (strip text))); [reflexivity|lia].
Qed.

(** The part kept before the marker: a non-empty trimmed string, which with
    the whitespace removed at the cut makes up the first [TEXT_CAP]
    characters. *)
Lemma kept_part (s : str) :
  trimmed isspace s -> TEXT_CAP < length s ->
  let kept := rstrip (firstn TEXT_CAP s) in
  kept <> [] /\ trimmed isspace kept /\
  exists ws, firstn TEXT_CAP s = kept ++ ws /\ forallb isspace ws = true /\
             length kept + length ws = TEXT_CAP.
Proof.
  intros [Hh _] Hlen kept.
  assert (Hcut : length (firstn TEXT_CAP s) = TEXT_CAP)
    by (apply firstn_length_le; lia).
  assert (Hhead : firstn TEXT_CAP s <> [] /\ clean_head isspace (firstn TEXT_CAP s) = true).
  { pose proof TEXT_CAP_pos as Hpos. destruct TEXT_CAP as [|n]; [lia|].
    destruct s as [|c s]; [simpl in Hlen; lia|]. simpl. split; [discriminate|exact Hh]. }
  destruct Hhead as [Hne Hch].
  split; [now apply rstrip_by_nonempty|].
  split; [split; [now apply rstrip_by_clean_head | apply rstrip_by_clean]|].
  destruct (rstrip_split (firstn TEXT_CAP s)) as [ws [E A]].
  exists ws. split; [exact E|]. split; [exact A|].
  fold kept in E. rewrite E in Hcut.
  now rewrite length_app in Hcut.
Qed.

(** Truncating a truncated text again, by the number [k] of whitespace
    characters removed at the cut. *)
Lemma apply_limits_again (kept ws : str) :
  kept <> [] -> trimmed isspace kept -> forallb isspace ws = true ->
  length kept + length ws = TEXT_CAP ->
  _apply_limits (kept ++ TRUNCATION_MARKER) =
  if 11 <=? length ws then kept ++ TRUNCATION_MARKER
  else rstrip (kept ++ firstn (length ws) TRUNCATION_MARKER) ++ TRUNCATION_MARKER.
Proof.
  intros Hne [Hh Hl] Hws Hlen.
  assert (Ht : strip (kept ++ TRUNCATION_MARKER) = kept ++ TRUNCATION_MARKER).
  { apply strip_id, trimmed_app; try assumption; [discriminate|reflexivity]. }
  unfold _apply_limits. rewrite Ht, length_app, marker_length.
  destruct (Nat.leb_spec 11 (length ws)) as [Hk|Hk].
  - destruct (Nat.ltb_spec TEXT_CAP (length kept + 11)); [lia|reflexivity].
  - destruct (Nat.ltb_spec TEXT_CAP (length kept + 11)); [|lia].
    rewrite firstn_app, firstn_all2 by lia.
    replace (TEXT_CAP - length kept) with (length ws) by lia. reflexivity.
Qed.

(** C7 (as the code has it).  The output of [_apply_limits] is never longer
    than the cap plus the marker.  Applying it to its own output gives that
    output again exactly when the trimmed text fits the cap, or the
    whitespace removed at the cut is at most 2 or at least 11 characters
    long; between 3 and 10 the second pass cuts inside the marker and
    appends a second one. *)
Theorem apply_limits_bound_and_idempotence (text : str) :
  length (_apply_limits text) <= TEXT_CAP + length TRUNCATION_MARKER /\
  (truncation_idempotent_at text <->
   length (strip text) <= TEXT_CAP \/
   trailing_ws_at_cut text <= 2 \/ 11 <= trailing_ws_at_cut text).
Proof.
  unfold truncation_idempotent_at.
  destruct (Nat.le_gt_cases (length (strip text)) TEXT_CAP) as [Hs|Hl].
  - rewrite (apply_limits_short text Hs). split; [lia|].
    split; [auto|intros _].
    rewrite apply_limits_short; rewrite strip_idem; [reflexivity|exact Hs].
  - rewrite (apply_limits_long text Hl).
    destruct (kept_part (strip text) (strip_trimmed text) Hl)
      as [Hne [Htr [ws [E [A Hlen]]]]].
    unfold trailing_ws_at_cut.
    set (kept := rstrip (firstn TEXT_CAP (strip text))) in *.
    replace (TEXT_CAP - length kept) with (length ws) by lia.
    split; [rewrite length_app; lia|].
    rewrite (apply_limits_again kept ws Hne Htr A Hlen).
    destruct (Nat.leb_spec 11 (length ws)) as [Hk|Hk].
    + split; [intros _; lia|reflexivity].
    + destruct (Nat.le_gt_cases (length ws) 2) as [H2|H3].
      * split; [intros _; lia|intros _].
        rewrite rstrip_all by now apply marker_prefix_ws.
        rewrite rstrip_id by apply Htr. reflexivity.
      * split; [|lia]. intros Heq. exfalso.
        destruct (marker_prefix_ink (length ws)) as [Hn [Hc Hln]]; [lia..|].
        rewrite rstrip_id in Heq by now apply clean_last_app.
        apply (f_equal (@length N)) in Heq.
        rewrite !length_app, Hln in Heq. lia.
Qed.

(** C7, as stated, fails: with three spaces right before the cut the first
    pass keeps [TEXT_CAP - 3] characters and the marker, and the second pass
    cuts this after the first character of the notice and appends the marker
    once more. *)
Lemma apply_limits_not_idempotent :
  ~ truncation_idempotent_at text_three_spaces_at_cut.
Proof.
  unfold truncation_idempotent_at.
  assert (H1 : (length (_apply_limits text_three_spaces_at_cut) =? TEXT_CAP + 8) = true)
    by (vm_compute; reflexivity).
  assert (H2 : (length (_apply_limits (_apply_limits text_three_spaces_at_cut))
                =? TEXT_CAP + 8) = false)
    by (vm_compute; reflexivity).
  intros H. rewrite H in H2. congruence.
Qed.

(** C8 (as the code has it).  When the trimmed text is longer than the cap,
    the capped text is the first [TEXT_CAP] characters of the trimmed text
    without the whitespace that ends them, followed by the marker, which
    begins with a blank line; it is the first [TEXT_CAP] characters of the
    text itself followed by the marker when the text has no leading
    whitespace and these characters do not end with whitespace. *)
Theorem apply_limits_truncation (text : str) :
  TEXT_CAP < length (strip text) ->
  (exists kept ws,
      _apply_limits text = kept ++ TRUNCATION_MARKER /\
      firstn TEXT_CAP (strip text) = kept ++ ws /\
      forallb isspace ws = true /\ kept <> [] /\ trimmed isspace kept /\
      (length kept = TEXT_CAP <-> ws = [])) /\
  firstn 2 TRUNCATION_MARKER = [NL; NL] /\
  (clean_head isspace text = true ->
   clean_last isspace (firstn TEXT_CAP text) = true ->
   _apply_limits text = firstn TEXT_CAP text ++ TRUNCATION_MARKER).
Proof.
  intros Hl. rewrite (apply_limits_long text Hl).
  destruct (kept_part (strip text) (strip_trimmed text) Hl)
    as [Hne [Htr [ws [E [A Hlen]]]]].
  split; [|split; [reflexivity|]].
  - exists (rstrip (firstn TEXT_CAP (strip text))), ws.
    repeat split; try assumption; try apply Htr.
    + intros Hk. destruct ws; [reflexivity|simpl in Hlen; lia].
    + intros ->. simpl in Hlen. lia.
  - intros Hh Hc. f_equal.
    assert (Hcut : firstn TEXT_CAP (strip text) = firstn TEXT_CAP text).
    { rewrite strip_of_clean_head in * by exact Hh.
      destruct (rstrip_split text) as [w [Ew _]].
      rewrite Ew at 2. rewrite firstn_app.
      replace (TEXT_CAP - length (rstrip text)) with 0 by lia.
      now rewrite firstn_O, app_nil_r. }
    rewrite Hcut. now apply rstrip_id.
Qed.

Lemma apply_limits_truncation_witness :
  TEXT_CAP < length (strip text_letters) /\
  _apply_limits text_letters = firstn TEXT_CAP text_letters ++ TRUNCATION_MARKER.
Proof.
  assert (H : TEXT_CAP < length (strip text_letters))
    by (apply Nat.ltb_lt; vm_compute; reflexivity).
  split; [exact H|].
  apply (proj2 (proj2 (apply_limits_truncation text_letters H))).
  - vm_compute; reflexivity.
  - vm_compute; reflexivity.
Defined.

(** C8, as stated, fails: a space as 12000th character is removed, so
    [TEXT_CAP - 1] characters precede the marker. *)
Lemma apply_limits_not_exact_prefix :
  ~ capped_to_exact_prefix_at text_space_at_cut.
Proof.
  unfold capped_to_exact_prefix_at.
  assert (Hlen : TEXT_CAP < length text_space_at_cut)
    by (apply Nat.ltb_lt; vm_compute; reflexivity).
  assert (H1 : (length (_apply_limits text_space_at_cut) =? TEXT_CAP + 10) = true)
    by (vm_compute; reflexivity).
  assert (H2 : (length (firstn TEXT_CAP text_space_at_cut ++ TRUNCATION_MARKER)
                =? TEXT_CAP + 10) = false)
    by (vm_compute; reflexivity).
  intros H. rewrite (H Hlen) in H1. congruence.
Qed.

(** ** Blocks: splitting and joining *)

Lemma has_nn_cons (c : N) (s : str) :
  has_nn (c :: s) = false -> has_nn s = false.
Proof.
  destruct s as [|d s]; [reflexivity|].
  change (has_nn (c :: d :: s)) with ((c =? NL)%N && (d =? NL)%N || has_nn (d :: s)).
  intros H. now apply orb_false_iff in H.
Qed.

Lemma has_nn_app_r (a b : str) : has_nn (a ++ b) = false -> has_nn b = false.
Proof.
  induction a as [|c a IH]; simpl app; [auto|].
  intros H. apply IH. now apply has_nn_cons in H.
Qed.

Lemma has_nn_app_l (a b : str) : has_nn (a ++ b) = false -> has_nn a = false.
Proof.
  induction a as [|c a IH]; [reflexivity|].
  destruct a as [|d a]; [reflexivity|].
  change (has_nn ((c :: d :: a) ++ b))
    with ((c =? NL)%N && (d =? NL)%N || has_nn ((d :: a) ++ b)).
  change (has_nn (c :: d :: a))
    with ((c =? NL)%N && (d =? NL)%N || has_nn (d :: a)).
  intros H. apply orb_false_iff in H as [H1 H2].
  rewrite H1. simpl. now apply IH.
Qed.

Lemma has_nn_strip (s : str) : has_nn s = false -> has_nn (strip s) = false.
Proof.
  intros H. unfold strip, strip_by.
  destruct (lstrip_by_split isspace s) as [w [E _]].
  rewrite E in H. apply has_nn_app_r in H.
  destruct (rstrip_by_split isspace (lstrip_by isspace s)) as [w' [E' _]].
  rewrite E' in H. now apply has_nn_app_l in H.
Qed.

(** Every piece produced by [split_nn] is free of the separator. *)
Lemma split_nn_pieces (s : str) :
  Forall (fun p => has_nn p = false) (split_nn s).
Proof.
  assert (H : forall n (s : str), length s <= n ->
              Forall (fun p => has_nn p = false) (split_nn s)).
  { clear s. induction n as [|n IH]; intros s Hn.
    - destruct s; [|simpl in Hn; lia]. repeat constructor.
    - destruct s as [|c [|d s]]; [repeat constructor..|].
      change (split_nn (c :: d :: s)) with
        (if (c =? NL)%N && (d =? NL)%N then [] :: split_nn s
         else match split_nn (d :: s) with
              | [] => [[c]]
              | p :: ps => (c :: p) :: ps
              end).
      destruct ((c =? NL)%N && (d =? NL)%N) eqn:E.
      + constructor; [reflexivity|]. apply IH. simpl in Hn. lia.
      + assert (Hd : Forall (fun p => has_nn p = false) (split_nn (d :: s)))
          by (apply IH; simpl in *; lia).
        assert (Hhd : exists p ps, split_nn (d :: s) = (d :: p) :: ps \/
                        (split_nn (d :: s) = [] :: ps /\ (d =? NL)%N = true)).
        { destruct s as [|e s]; [exists [], []; now left|].
          change (split_nn (d :: e :: s)) with
            (if (d =? NL)%N && (e =? NL)%N then [] :: split_nn s
             else match split_nn (e :: s) with
                  | [] => [[d]]
                  | p :: ps => (d :: p) :: ps
                  end).
          destruct ((d =? NL)%N && (e =? NL)%N) eqn:E2.
          - exists [], (split_nn s). right. split; [reflexivity|].
            now apply andb_true_iff in E2.
          - destruct (split_nn (e :: s)) as [|p ps].
            + exists [], []. now left.
            + exists p, ps. now left. }
        destruct Hhd as [p [ps [Hs|[Hs Hd']]]]; rewrite Hs in *.
        * inversion Hd as [|? ? Hp Hps]; subst. constructor; [|exact Hps].
          change (has_nn (c :: d :: p))
            with ((c =? NL)%N && (d =? NL)%N || has_nn (d :: p)).
          now rewrite E, Hp.
        * inversion Hd as [|? ? Hp Hps]; subst. constructor; [reflexivity|exact Hps]. }
  apply (H (length s)). lia.
Qed.

(** A string without the separator is one piece. *)
Lemma split_nn_one (b : str) : has_nn b = false -> split_nn b = [b].
Proof.
  induction b as [|c b IH]; [reflexivity|].
  destruct b as [|d b]; [reflexivity|].
  change (has_nn (c :: d :: b))
    with ((c =? NL)%N && (d =? NL)%N || has_nn (d :: b)).
  change (split_nn (c :: d :: b)) with
    (if (c =? NL)%N && (d =? NL)%N then [] :: split_nn b
     else match split_nn (d :: b) with
          | [] => [[c]]
          | p :: ps => (c :: p) :: ps
          end).
  intros H. apply orb_false_iff in H as [H1 H2].
  rewrite H1, (IH H2). reflexivity.
Qed.

(** A separator that follows a string without separator which does not end
    with a newline is the first one found. *)
Lemma split_nn_first (b rest : str) :
  has_nn b = false -> clean_last isspace b = true ->
  split_nn (b ++ NL :: NL :: rest) = b :: split_nn rest.
Proof.
  induction b as [|c b IH]; intros Hn Hc; [reflexivity|].
  assert (Hb : has_nn b = false) by now apply has_nn_cons in Hn.
  destruct b as [|d b].
  - rewrite clean_last_rev in Hc. simpl in Hc.
    assert (Hc' : (c =? NL)%N = false).
    { destruct (N.eqb_spec c NL) as [->|]; [discriminate Hc|reflexivity]. }
    simpl app.
    change (split_nn (c :: NL :: NL :: rest)) with
      (if (c =? NL)%N && (NL =? NL)%N then [] :: split_nn (NL :: rest)
       else match split_nn (NL :: NL :: rest) with
            | [] => [[c]]
            | p :: ps => (c :: p) :: ps
            end).
    rewrite Hc'. reflexivity.
  - assert (Hc2 : clean_last isspace (d :: b) = true).
    { rewrite clean_last_rev in *. simpl in *.
      destruct (rev b ++ [d]) eqn:E; [now destruct (rev b)|exact Hc]. }
    change (has_nn (c :: d :: b))
      with ((c =? NL)%N && (d =? NL)%N || has_nn (d :: b)) in Hn.
    apply orb_false_iff in Hn as [H1 _].
    change (split_nn ((c :: d :: b) ++ NL :: NL :: rest)) with
      (if (c =? NL)%N && (d =? NL)%N then [] :: split_nn (b ++ NL :: NL :: rest)
       else match split_nn ((d :: b) ++ NL :: NL :: rest) with
            | [] => [[c]]
            | p :: ps => (c :: p) :: ps
            end).
    rewrite H1, (IH Hb Hc2). reflexivity.
Qed.

(** Splitting the join of blocks gives the blocks back. *)
Lemma split_join_blocks (bs : list str) :
  bs <> [] -> Forall is_block bs -> split_nn (join_nn bs) = bs.
Proof.
  induction bs as [|b bs IH]; [congruence|]. intros _ H.
  inversion H as [|? ? [Hne [[Hh Hl] Hn]] Hbs]; subst.
  destruct bs as [|b' bs].
  - simpl. now apply split_nn_one.
  - change (join_nn (b :: b' :: bs)) with (b ++ NL :: NL :: join_nn (b' :: bs)).
    rewrite split_nn_first by assumption.
    rewrite IH; [reflexivity|discriminate|exact Hbs].
Qed.

(** The join of blocks is trimmed. *)
Lemma join_blocks_trimmed (bs : list str) :
  Forall is_block bs -> trimmed isspace (join_nn bs) /\ (bs <> [] -> join_nn bs <> []).
Proof.
  induction bs as [|b bs IH]; intros H.
  - split; [split; reflexivity|congruence].
  - inversion H as [|? ? [Hne [[Hh Hl] Hn]] Hbs]; subst.
    destruct bs as [|b' bs]; [simpl; split; [split|]; auto|].
    destruct (IH Hbs) as [[_ Hl'] Hne']. specialize (Hne' ltac:(discriminate)).
    change (join_nn (b :: b' :: bs)) with (b ++ NL :: NL :: join_nn (b' :: bs)).
    split; [split|].
    + now apply clean_head_app.
    + apply clean_last_app; [discriminate|].
      change (NL :: NL :: join_nn (b' :: bs)) with ([NL; NL] ++ join_nn (b' :: bs)).
      now apply clean_last_app.
    + destruct b; [congruence|discriminate].
Qed.

(** ** Block deduplication *)

Section DedupeProofs.

Variable rt : Runtime.

(** The loop appends the kept blocks to [out]. *)
Lemma dedupe_loop (blocks : list str) (st : DedupeState) :
  out (fold_left (dedupe_step rt) blocks st)
  = out st ++ kept_blocks rt (seen st) blocks.
Proof.
  revert st. induction blocks as [|b blocks IH]; intros st; simpl.
  - now rewrite app_nil_r.
  - rewrite IH. unfold dedupe_step.
    destruct (negb (nonempty b)); [reflexivity|].
    destruct (negb (nonempty (block_key rt b))
              || bool_decide (block_key rt b ∈ seen st)); [reflexivity|].
    simpl. now rewrite <- app_assoc.
Qed.

(** The kept blocks are among the given ones, and not empty. *)
Lemma kept_blocks_Forall (P : str -> Prop) (sn : gset str) (blocks : list str) :
  Forall P blocks -> Forall P (kept_blocks rt sn blocks).
Proof.
  revert sn. induction blocks as [|b blocks IH]; intros sn H; simpl; [constructor|].
  inversion H; subst.
  destruct (negb (nonempty b)); [auto|].
  destruct (negb (nonempty (block_key rt b))
            || bool_decide (block_key rt b ∈ sn)); [auto|].
  constructor; auto.
Qed.

Lemma kept_blocks_nonempty (sn : gset str) (blocks : list str) :
  Forall (fun b => b <> []) (kept_blocks rt sn blocks).
Proof.
  revert sn. induction blocks as [|b blocks IH]; intros sn; simpl; [constructor|].
  destruct b as [|c b]; simpl; [auto|].
  destruct (negb (nonempty (block_key rt (c :: b)))
            || bool_decide (block_key rt (c :: b) ∈ sn)); [auto|].
  constructor; [discriminate|auto].
Qed.

(** Running the loop on what it kept keeps everything. *)
Lemma kept_blocks_idem (sn : gset str) (blocks : list str) :
  kept_blocks rt sn (kept_blocks rt sn blocks) = kept_blocks rt sn blocks.
Proof.
  revert sn. induction blocks as [|b blocks IH]; intros sn; simpl; [reflexivity|].
  destruct (negb (nonempty b)) eqn:E1; [auto|].
  destruct (negb (nonempty (block_key rt b))
            || bool_decide (block_key rt b ∈ sn)) eqn:E2; [auto|].
  simpl. rewrite E1, E2. now rewrite IH.
Qed.

Lemma map_strip_blocks (bs : list str) :
  Forall is_block bs -> List.map strip bs = bs.
Proof.
  induction 1 as [|b bs [_ [Ht _]] _ IH]; simpl; [reflexivity|].
  now rewrite IH, (strip_id b Ht).
Qed.

(** What [_dedupe_blocks] returns: the join of blocks that the loop keeps
    unchanged. *)
Lemma dedupe_blocks_shape (text : str) :
  exists bs, _dedupe_blocks rt text = join_nn bs /\ Forall is_block bs /\
             kept_blocks rt ∅ bs = bs.
Proof.
  set (blocks := List.map strip (split_nn text)).
  exists (kept_blocks rt ∅ blocks).
  assert (Hb : Forall is_block (kept_blocks rt ∅ blocks)).
  { assert (H1 : Forall (fun b => trimmed isspace b /\ has_nn b = false) blocks).
    { unfold blocks. apply List.Forall_forall. intros b Hin.
      apply List.in_map_iff in Hin as [p [<- Hin]].
      pose proof (split_nn_pieces text) as Hp.
      rewrite List.Forall_forall in Hp.
      split; [apply strip_trimmed|apply has_nn_strip, Hp, Hin]. }
    pose proof (kept_blocks_Forall _ ∅ _ H1) as H2.
    pose proof (kept_blocks_nonempty ∅ blocks) as H3.
    rewrite List.Forall_forall in *. intros b Hin.
    destruct (H2 b Hin). split; [now apply H3|now split]. }
  split; [|split; [exact Hb|apply kept_blocks_idem]].
  unfold _dedupe_blocks. fold blocks. rewrite dedupe_loop. simpl.
  apply strip_id, join_blocks_trimmed, Hb.
Qed.

(** C9.  Block deduplication is idempotent: deduplicating the result of a
    deduplication gives that result again, whatever the text and whatever
    [str.lower] does. *)
Theorem dedupe_blocks_idempotent (text : str) :
  _dedupe_blocks rt (_dedupe_blocks rt text) = _dedupe_blocks rt text.
Proof.
  destruct (dedupe_blocks_shape text) as [bs [E [Hb Hk]]].
  rewrite E. unfold _dedupe_blocks at 1. rewrite dedupe_loop. simpl.
  destruct bs as [|b bs]; [reflexivity|].
  rewrite split_join_blocks by (try discriminate; exact Hb).
  rewrite (map_strip_blocks _ Hb), Hk.
  apply strip_id, join_blocks_trimmed, Hb.
Qed.

End DedupeProofs.

(** ** URL validation *)

Section ValidationProofs.

Variable rt : Runtime.

Lemma check_infos_run (infos : list str) (w : World) :
  check_infos rt infos w =
  (if forallb (_is_public_ip rt) infos then Ok tt else Raise InvalidURL, w).
Proof.
  induction infos as [|ip infos IH]; simpl; [reflexivity|].
  destruct (_is_public_ip rt ip); simpl; [exact IH|reflexivity].
Qed.

(** What the resolution step does: a negative [min(3, timeout_s)] is
    refused by [socket.setdefaulttimeout] before anything else happens; on a
    port that cannot be read nothing is resolved; otherwise the resolver is
    called once, under a default timeout of [min(3, timeout_s)], and the
    default timeout is put back. *)
Lemma dns_check_run (p : ParseResult) (host : str) (timeout_s : Z) (w : World) :
  dns_check rt p host timeout_s w =
  if (Z.min 3 timeout_s <? 0)%Z then (Raise (PyError (py "ValueError")), w)
  else
    match port_or_default p with
    | Raise _ => (Raise InvalidURL, w)
    | Ok prt =>
        (match getaddrinfo rt host prt with
         | None => Raise InvalidURL
         | Some infos =>
             if forallb (_is_public_ip rt) infos then Ok tt else Raise InvalidURL
         end,
         with_call w (EvGetAddrInfo host prt (Some (Z.min 3 timeout_s))))
    end.
Proof.
  destruct w as [d cs].
  unfold dns_check, bind, getdefaulttimeout, setdefaulttimeout,
    restore_default_timeout, try_finally, try_except, lift, resolve, with_call,
    port_or_default; simpl.
  destruct (Z.min 3 timeout_s <? 0)%Z; simpl; [reflexivity|].
  destruct (port p) as [|[n|]]; simpl; [reflexivity| |].
  - destruct (getaddrinfo rt host _) as [infos|]; simpl; [|reflexivity].
    rewrite check_infos_run.
    destruct (forallb (_is_public_ip rt) infos); reflexivity.
  - destruct (getaddrinfo rt host _) as [infos|]; simpl; [|reflexivity].
    rewrite check_infos_run.
    destruct (forallb (_is_public_ip rt) infos); reflexivity.
Qed.

Lemma min3_not_negative (timeout_s : Z) :
  (0 <= timeout_s)%Z -> (Z.min 3 timeout_s <? 0)%Z = false.
Proof. intros H. apply Z.ltb_ge. lia. Qed.

Lemma validate_run (raw_url : str) (timeout_s : Z) (w : World) (p : ParseResult) :
  urlparse rt (clean_url raw_url) = Some p ->
  _validate_public_http_url rt raw_url timeout_s w =
  if negb (passes_syntax_checks rt p) then (Raise InvalidURL, w)
  else if is_local_name (checked_hostname rt p) then (Raise InvalidURL, w)
  else match ip_address rt (checked_hostname rt p) with
       | Some a =>
           (if is_global rt a then Ok (clean_url raw_url) else Raise InvalidURL, w)
       | None =>
           match dns_check rt p (checked_hostname rt p) timeout_s w with
           | (Ok _, w') => (Ok (clean_url raw_url), w')
           | (Raise e, w') => (Raise e, w')
           end
       end.
Proof.
  intros Hp. unfold _validate_public_http_url, passes_syntax_checks. rewrite Hp.
  destruct (str_eqb (scheme p) (py "http") || str_eqb (scheme p) (py "https"));
    simpl; [|reflexivity].
  destruct (nonempty (netloc p)); simpl; [|reflexivity].
  destruct (truthy (username p)); simpl; [reflexivity|].
  destruct (truthy (password p)); simpl; [reflexivity|].
  destruct (nonempty (checked_hostname rt p)); simpl; [|reflexivity].
  destruct (is_local_name (checked_hostname rt p)); [reflexivity|].
  unfold _is_public_ip.
  destruct (ip_address rt (checked_hostname rt p)) as [a|].
  - destruct (is_global rt a); reflexivity.
  - unfold bind. destruct (dns_check rt p (checked_hostname rt p) timeout_s w) as [[[]|e] w'];
      reflexivity.
Qed.

(** What validation returns is the cleaned candidate. *)
Lemma validate_returns_clean (raw_url : str) (timeout_s : Z) (w : World) (u : str) :
  fst (_validate_public_http_url rt raw_url timeout_s w) = Ok u ->
  u = clean_url raw_url.
Proof.
  destruct (urlparse rt (clean_url raw_url)) as [p|] eqn:Hp.
  - rewrite (validate_run _ _ _ _ Hp).
    destruct (negb (passes_syntax_checks rt p)); [discriminate|].
    destruct (is_local_name (checked_hostname rt p)); [discriminate|].
    destruct (ip_address rt (checked_hostname rt p)) as [a|].
    + destruct (is_global rt a); simpl; congruence.
    + destruct (dns_check rt p (checked_hostname rt p) timeout_s w) as [[[]|e] w'];
        simpl; congruence.
  - unfold _validate_public_http_url. rewrite Hp. discriminate.
Qed.

(** Under a timeout that is not negative, validation raises nothing but
    [InvalidURL] once the URL parses. *)
Lemma validate_outcome (raw_url : str) (timeout_s : Z) (w : World) (p : ParseResult) :
  urlparse rt (clean_url raw_url) = Some p ->
  (0 <= timeout_s)%Z ->
  fst (_validate_public_http_url rt raw_url timeout_s w) = Ok (clean_url raw_url) \/
  fst (_validate_public_http_url rt raw_url timeout_s w) = Raise InvalidURL.
Proof.
  intros Hp Ht. rewrite (validate_run _ _ _ _ Hp).
  destruct (negb (passes_syntax_checks rt p)); [now right|].
  destruct (is_local_name (checked_hostname rt p)); [now right|].
  destruct (ip_address rt (checked_hostname rt p)) as [a|].
  - destruct (is_global rt a); [now left|now right].
  - rewrite dns_check_run, (min3_not_negative _ Ht).
    destruct (port_or_default p) as [prt|e]; [|now right].
    destruct (getaddrinfo rt (checked_hostname rt p) prt) as [infos|]; [|now right].
    destruct (forallb (_is_public_ip rt) infos); [now left|now right].
Qed.

(** The effect of validation on the world: the default timeout is as before,
    and at most one call was made, a resolver call under a default timeout
    of [min(3, timeout_s)]. *)
Lemma validate_effect (raw_url : str) (timeout_s : Z) (w : World) :
  let w' := snd (_validate_public_http_url rt raw_url timeout_s w) in
  sock_default_timeout w' = sock_default_timeout w /\
  (calls w' = calls w \/
   exists host prt,
     calls w' = calls w ++ [EvGetAddrInfo host prt (Some (Z.min 3 timeout_s))]).
Proof.
  simpl. destruct (urlparse rt (clean_url raw_url)) as [p|] eqn:Hp.
  - rewrite (validate_run _ _ _ _ Hp).
    destruct (negb (passes_syntax_checks rt p)); [simpl; auto|].
    destruct (is_local_name (checked_hostname rt p)); [simpl; auto|].
    destruct (ip_address rt (checked_hostname rt p)) as [a|]; [simpl; auto|].
    rewrite dns_check_run.
    destruct (Z.min 3 timeout_s <? 0)%Z; [simpl; auto|].
    destruct (port_or_default p) as [prt|e]; [|simpl; auto].
    destruct (getaddrinfo rt (checked_hostname rt p) prt) as [infos|];
      [destruct (forallb (_is_public_ip rt) infos)|]; simpl; eauto.
  - unfold _validate_public_http_url. rewrite Hp. simpl. auto.
Qed.

End ValidationProofs.

Lemma new_calls_same (w w' : World) :
  calls w' = calls w -> new_calls w w' = [].
Proof. unfold new_calls. intros ->. apply skipn_all. Qed.

Lemma new_calls_app (w w' : World) (evs : list Event) :
  calls w' = calls w ++ evs -> new_calls w w' = evs.
Proof.
  unfold new_calls. intros ->.
  rewrite skipn_app, skipn_all, Nat.sub_diag. reflexivity.
Qed.

(** C3 (as the code has it).  When validation returns or raises, the
    process-wide default timeout is what it was before the call.  While the
    resolver runs it is not: every resolver call of a validation (there is at
    most one) runs under a default timeout of [min(3, timeout_s)], which
    validation sets before the call and replaces by the saved value
    afterwards. *)
Theorem validation_restores_default_timeout
    (rt : Runtime) (raw_url : str) (timeout_s : Z) (w : World) :
  let w' := snd (_validate_public_http_url rt raw_url timeout_s w) in
  sock_default_timeout w' = sock_default_timeout w /\
  length (new_calls w w') <= 1 /\
  Forall (fun d => d = Some (Z.min 3 timeout_s))
         (resolver_timeouts (new_calls w w')).
Proof.
  intros w'. destruct (validate_effect rt raw_url timeout_s w) as [Hd Hc].
  fold w' in Hd, Hc. split; [exact Hd|].
  destruct Hc as [Hc|[host [prt Hc]]].
  - rewrite (new_calls_same _ _ Hc). simpl. split; [lia|constructor].
  - rewrite (new_calls_app _ _ _ Hc). simpl. split; [lia|].
    constructor; [reflexivity|constructor].
Qed.

(** C3, as stated, fails: resolving [example.com] runs under a default
    timeout of 3 seconds, the process having none. *)
Lemma validation_sets_default_timeout :
  ~ default_timeout_untouched Fixture.rt (py "http://example.com/") 15 Fixture.w0.
Proof.
  unfold default_timeout_untouched. vm_compute. intros [_ H].
  inversion H as [|? ? Hd _]. discriminate Hd.
Qed.

(** C1.  For a URL whose host is a domain name, validated under a timeout
    that is not negative (the service passes timeouts between 1 and 60) and
    with a resolver that, like [socket.getaddrinfo], answers with at least
    one address or fails: validation returns the cleaned URL or raises
    [InvalidURL]; it returns exactly when the URL passes the checks on its
    syntax, its port can be read, the resolver answers, with at least one
    address, and every address of the answer is public; and it raises
    [InvalidURL] when the resolver fails, answers without an address, or
    answers with an address that is not public. *)
Theorem domain_name_validation
    (rt : Runtime) (raw_url : str) (timeout_s : Z) (w : World) (p : ParseResult) :
  urlparse rt (clean_url raw_url) = Some p ->
  is_domain_name rt p ->
  (0 <= timeout_s)%Z ->
  (forall prt, getaddrinfo rt (checked_hostname rt p) prt <> Some []) ->
  let run := _validate_public_http_url rt raw_url timeout_s w in
  (fst run = Ok (clean_url raw_url) \/ fst run = Raise InvalidURL) /\
  (fst run = Ok (clean_url raw_url) <->
   passes_syntax_checks rt p = true /\
   exists prt infos,
     port_or_default p = Ok prt /\
     getaddrinfo rt (checked_hostname rt p) prt = Some infos /\
     infos <> [] /\
     forallb (_is_public_ip rt) infos = true) /\
  (forall prt,
      port_or_default p = Ok prt ->
      getaddrinfo rt (checked_hostname rt p) prt = None \/
      (exists infos,
          getaddrinfo rt (checked_hostname rt p) prt = Some infos /\
          (infos = [] \/
           exists ip, In ip infos /\ _is_public_ip rt ip = false)) ->
      fst run = Raise InvalidURL).
Proof.
  intros Hp [Hip Hloc] Ht Hres run.
  split; [now apply validate_outcome with p|].
  unfold run.
  rewrite (validate_run rt _ _ _ _ Hp), Hloc, Hip, dns_check_run,
    (min3_not_negative _ Ht).
  split.
  - destruct (passes_syntax_checks rt p); simpl.
    + destruct (port_or_default p) as [prt|e] eqn:Eport; simpl.
      * destruct (getaddrinfo rt (checked_hostname rt p) prt) as [infos|] eqn:Eres;
          simpl.
        -- destruct (forallb (_is_public_ip rt) infos) eqn:E; simpl.
           ++ split; [intros _|reflexivity]. split; [reflexivity|].
              exists prt, infos. repeat split; try assumption.
              intros ->. now apply (Hres prt).
           ++ split; [discriminate|].
              intros [_ [prt' [infos' [H1 [H2 [_ H3]]]]]].
              injection H1 as <-. rewrite Eres in H2. injection H2 as <-.
              congruence.
        -- split; [discriminate|].
           intros [_ [prt' [infos' [H1 [H2 _]]]]].
           injection H1 as <-. congruence.
      * split; [discriminate|].
        intros [_ [prt' [infos' [H1 _]]]]. discriminate H1.
    + split; [discriminate|]. intros [H _]. discriminate H.
  - intros prt Hport Hbad.
    destruct (negb (passes_syntax_checks rt p)); [reflexivity|].
    rewrite Hport.
    destruct Hbad as [->|[infos [Hg [->|[ip [Hin Hnp]]]]]]; simpl.
    + reflexivity.
    + now contradiction (Hres prt).
    + rewrite Hg.
      destruct (forallb (_is_public_ip rt) infos) eqn:E; [|reflexivity].
      rewrite forallb_forall in E. rewrite (E ip Hin) in Hnp. discriminate Hnp.
Qed.

Lemma domain_name_validation_witness :
  fst (_validate_public_http_url Fixture.rt (py "http://mixed.example/") 15 Fixture.w0)
    = Raise InvalidURL.
Proof.
  refine (proj2 (proj2 (domain_name_validation Fixture.rt (py "http://mixed.example/")
                          15 Fixture.w0 (Fixture.parsed_http (py "mixed.example"))
                          _ _ _ _)) 80%Z _ _).
  - vm_compute. reflexivity.
  - split; vm_compute; reflexivity.
  - lia.
  - intros prt. vm_compute. discriminate.
  - vm_compute. reflexivity.
  - right. exists [py "93.184.216.34"; py "192.168.1.1"].
    split; [vm_compute; reflexivity|].
    right. exists (py "192.168.1.1").
    split; [right; left; reflexivity|vm_compute; reflexivity].
Defined.

(** C2.  Once the URL parses: a host that is [localhost] or ends in
    [.localhost] or [.local] is refused with [InvalidURL]; a host that is a
    literal address, in a URL with scheme http or https, a network location,
    no user name and no password, is accepted when the address is global and
    refused with [InvalidURL] when it is not.  Neither case resolves
    anything. *)
Theorem local_name_and_literal_address_validation
    (rt : Runtime) (raw_url : str) (timeout_s : Z) (w : World) (p : ParseResult) :
  urlparse rt (clean_url raw_url) = Some p ->
  (is_local_name (checked_hostname rt p) = true ->
   _validate_public_http_url rt raw_url timeout_s w = (Raise InvalidURL, w)) /\
  (passes_syntax_checks rt p = true ->
   is_local_name (checked_hostname rt p) = false ->
   forall a, ip_address rt (checked_hostname rt p) = Some a ->
   _validate_public_http_url rt raw_url timeout_s w =
   (if is_global rt a then Ok (clean_url raw_url) else Raise InvalidURL, w)).
Proof.
  intros Hp. rewrite (validate_run rt _ _ _ _ Hp). split.
  - intros ->. now destruct (negb (passes_syntax_checks rt p)).
  - intros -> -> a ->. reflexivity.
Qed.

Lemma local_name_and_literal_address_validation_witness :
  _validate_public_http_url Fixture.rt (py "http://localhost/") 15 Fixture.w0
    = (Raise InvalidURL, Fixture.w0) /\
  _validate_public_http_url Fixture.rt (py "http://8.8.8.8/") 15 Fixture.w0
    = (Ok (clean_url (py "http://8.8.8.8/")), Fixture.w0) /\
  _validate_public_http_url Fixture.rt (py "http://169.254.169.254/") 15 Fixture.w0
    = (Raise InvalidURL, Fixture.w0).
Proof.
  split; [|split].
  - refine (proj1 (local_name_and_literal_address_validation Fixture.rt
                     (py "http://localhost/") 15 Fixture.w0
                     (Fixture.parsed_http (py "localhost")) _) _);
      vm_compute; reflexivity.
  - refine (proj2 (local_name_and_literal_address_validation Fixture.rt
                     (py "http://8.8.8.8/") 15 Fixture.w0
                     (Fixture.parsed_http (py "8.8.8.8")) _) _ _
                  (IPv4Address 134744072) _);
      vm_compute; reflexivity.
  - refine (proj2 (local_name_and_literal_address_validation Fixture.rt
                     (py "http://169.254.169.254/") 15 Fixture.w0
                     (Fixture.parsed_http (py "169.254.169.254")) _) _ _
                  (IPv4Address 2852039166) _);
      vm_compute; reflexivity.
Defined.

(** ** Timeouts *)

Lemma clamp_max_min (x : Z) : Z.max 1 (Z.min 180 x) = clamp x 1 180.
Proof.
  unfold clamp.
  destruct (Z.ltb_spec x 1); [lia|]. destruct (Z.ltb_spec 180 x); lia.
Qed.

Lemma parse_timeout_effective (rt : Runtime) (raw : PyVal) (default_s : Z) :
  _parse_timeout_s rt raw default_s =
  FetchBudget_effective
    (match py_int rt raw with Some t => t | None => default_s end).
Proof. unfold _parse_timeout_s, FetchBudget_effective. now rewrite clamp_max_min. Qed.

Lemma effective_idem (t : Z) :
  FetchBudget_effective (FetchBudget_effective t) = FetchBudget_effective t.
Proof.
  unfold FetchBudget_effective, clamp.
  repeat match goal with
         | |- context [(?a <? ?b)%Z] => destruct (Z.ltb_spec a b)
         end; lia.
Qed.

Lemma effective_15 : FetchBudget_effective 15 = 15%Z.
Proof. reflexivity. Qed.

Section FetchProofs.

Variable rt : Runtime.
Variable cfg : Config.

Lemma validate_then_ret (raw : str) (t : Z) (w w' : World) (url : str) (t' : Z) :
  (url <- _validate_public_http_url rt raw t ;; ret (url, t)) w = (Ok (url, t'), w') ->
  t' = t /\ w' = snd (_validate_public_http_url rt raw t w).
Proof.
  unfold bind, ret.
  destruct (_validate_public_http_url rt raw t w) as [[u|e] w1]; simpl;
    intros H; inversion H; auto.
Qed.

(** The timeout [_extract_input] returns with a URL is the effective timeout
    of the request. *)
Lemma extract_input_timeout (request : Request) (body_json : BodyJson)
    (body_text : str) (w w' : World) (url : str) (t : Z) :
  _extract_input rt request body_json body_text w = (Ok (url, t), w') ->
  t = FetchBudget_effective (requested_timeout rt request body_json body_text) /\
  exists raw, w' = snd (_validate_public_http_url rt raw t w).
Proof.
  unfold _extract_input, requested_timeout, requested_or_default.
  destruct (nonempty (strip (or_empty (query_params request !! py "url")))).
  - intros H. apply validate_then_ret in H as [-> ->].
    split; [apply parse_timeout_effective|eauto].
  - set (from_json :=
           match body_json with
           | BodyDict d =>
               (dict_get d (py "url"), _parse_timeout_s rt (dict_get d (py "timeout")) 15)
           | BodyOther => (PyNone, 15%Z)
           end).
    assert (Hj : snd from_json =
                 FetchBudget_effective
                   match body_json with
                   | BodyDict d =>
                       match py_int rt (dict_get d (py "timeout")) with
                       | Some t => t
                       | None => 15%Z
                       end
                   | BodyOther => 15%Z
                   end).
    { unfold from_json. destruct body_json; simpl;
        [apply parse_timeout_effective|reflexivity]. }
    assert (Hu : fst from_json =
                 match body_json with
                 | BodyDict d => dict_get d (py "url")
                 | BodyOther => PyNone
                 end) by (unfold from_json; now destruct body_json).
    rewrite <- Hu. clearbody from_json.
    unfold bind at 1.
    destruct (py_truthy (fst from_json)) eqn:Etr; simpl.
    + unfold ret at 1. rewrite Etr. simpl.
      intros H. apply validate_then_ret in H as [-> ->].
      split; [exact Hj|eauto].
    + unfold bind at 1, lift.
      destruct (_extract_url_and_timeout_from_text rt body_text)
        as [[t_url t_timeout]|e]; simpl; [|discriminate].
      unfold ret at 1.
      match goal with
      | |- context [py_truthy ?v] => destruct (py_truthy v)
      end; simpl; [|unfold raise; discriminate].
      intros H. apply validate_then_ret in H as [-> ->].
      split; [|eauto].
      destruct t_timeout as [tt|]; [|exact Hj].
      rewrite parse_timeout_effective. reflexivity.
Qed.

(** The streamed fetch makes one call, with [min(5, timeout_s)] to connect
    and [timeout_s] to read, and leaves the default timeout alone. *)
Lemma fetch_html_world (url : str) (timeout_s : Z) (w : World) :
  snd (_fetch_html rt cfg url timeout_s w) =
  with_call w (EvSessionGet url (Z.min 5 timeout_s) timeout_s).
Proof.
  unfold _fetch_html, bind, emit, lift, raise, ret, with_call. simpl.
  destruct (session_get rt url (Z.min 5 timeout_s) timeout_s) as [| | | |r];
    try reflexivity.
  destruct (400 <=? status_code r)%Z; [reflexivity|].
  destruct (read_body cfg (body_chunks r) (body_error r) []); [|reflexivity].
  destruct (response_encoding r); [|reflexivity].
  destruct (decode rt a0 a); [|reflexivity].
  destruct (negb (nonempty (strip a1))); reflexivity.
Qed.

(** The rendered fetch makes one call, with [min(60, timeout_s)] seconds in
    milliseconds. *)
Lemma fetch_html_rendered_world (url : str) (timeout_s : Z) (w : World) :
  snd (_fetch_html_rendered rt url timeout_s w) =
  with_call w (EvPlaywright url (Z.min 60 timeout_s * 1000)).
Proof.
  unfold _fetch_html_rendered, bind, emit, raise, ret, with_call. simpl.
  destruct (playwright rt url (Z.min 60 timeout_s * 1000)) as [| | |html];
    try reflexivity.
  destruct (negb (nonempty (strip (or_empty html)))); reflexivity.
Qed.

(** The rendered fetch raises a timeout only as [FetchTimeout], and only
    when the browser timed out. *)
Lemma fetch_html_rendered_timeout (url : str) (timeout_s : Z) (w : World) (e : exn) :
  fst (_fetch_html_rendered rt url timeout_s w) = Raise e ->
  is_timeout e = true ->
  e = FetchTimeout /\
  playwright rt url (Z.min 60 timeout_s * 1000) = PWTimeout.
Proof.
  unfold _fetch_html_rendered, bind, emit, raise, ret. simpl.
  destruct (playwright rt url (Z.min 60 timeout_s * 1000)) as [| | |html]; simpl.
  - intros [= <-]. discriminate.
  - intros [= <-]. auto.
  - intros [= <-]. discriminate.
  - destruct (negb (nonempty (strip (or_empty html)))); simpl;
      intros [= <-]; discriminate.
Qed.

Lemma best_effort_run (url : str) (timeout_s : Z) (w : World) :
  _fetch_html_best_effort rt cfg url timeout_s w =
  match _fetch_html_rendered rt url timeout_s w with
  | (Ok html, w1) => (Ok html, w1)
  | (Raise e, w1) =>
      if is_timeout e then (Raise e, w1) else _fetch_html rt cfg url timeout_s w1
  end.
Proof.
  unfold _fetch_html_best_effort, try_except.
  destruct (_fetch_html_rendered rt url timeout_s w) as [[html|e] w1]; [reflexivity|].
  destruct e as [code d|cls]; simpl; [|reflexivity].
  destruct (code =? 504)%Z; reflexivity.
Qed.

End FetchProofs.



(** C4.  The rendered fetch is attempted first.  When it returns, its result
    is the result.  When it raises a timeout (the [HTTPException] with
    status 504, raised exactly when the browser timed out) that exception is
    the result and no streamed fetch is made.  When it raises anything else,
    which includes the failure to import playwright, the streamed fetch is
    made next and its outcome is the result. *)
Theorem best_effort_fallback_policy
    (rt : Runtime) (cfg : Config) (url : str) (timeout_s : Z) (w : World) :
  let rendered := _fetch_html_rendered rt url timeout_s w in
  let best := _fetch_html_best_effort rt cfg url timeout_s w in
  let ev_rendered := EvPlaywright url (Z.min 60 timeout_s * 1000) in
  let ev_streamed := EvSessionGet url (Z.min 5 timeout_s) timeout_s in
  snd rendered = with_call w ev_rendered /\
  (forall html, fst rendered = Ok html ->
     best = (Ok html, snd rendered) /\ new_calls w (snd best) = [ev_rendered]) /\
  (forall e, fst rendered = Raise e -> is_timeout e = true ->
     e = FetchTimeout /\
     best = (Raise FetchTimeout, snd rendered) /\
     new_calls w (snd best) = [ev_rendered]) /\
  (forall e, fst rendered = Raise e -> is_timeout e = false ->
     best = _fetch_html rt cfg url timeout_s (snd rendered) /\
     new_calls w (snd best) = [ev_rendered; ev_streamed]) /\
  (playwright rt url (Z.min 60 timeout_s * 1000) = PWImportError ->
     exists e, fst rendered = Raise e /\ is_timeout e = false).
Proof.
  intros rendered best ev_rendered ev_streamed.
  pose proof (fetch_html_rendered_world rt url timeout_s w) as Hw.
  fold rendered ev_rendered in Hw.
  assert (Hb : best = match rendered with
                      | (Ok html, w1) => (Ok html, w1)
                      | (Raise e, w1) =>
                          if is_timeout e then (Raise e, w1)
                          else _fetch_html rt cfg url timeout_s w1
                      end) by apply best_effort_run.
  assert (Hn : new_calls w (with_call w ev_rendered) = [ev_rendered])
    by now apply new_calls_app.
  split; [exact Hw|]. split; [|split; [|split]].
  - intros html Hr. destruct rendered as [r w1]. simpl in *. subst r w1.
    rewrite Hb. auto.
  - intros e Hr He.
    destruct (fetch_html_rendered_timeout rt url timeout_s w e Hr He) as [-> _].
    destruct rendered as [r w1]. simpl in *. subst r w1.
    rewrite Hb. auto.
  - intros e Hr He. destruct rendered as [r w1]. simpl in *. subst r w1.
    rewrite Hb, He. split; [reflexivity|].
    rewrite fetch_html_world. apply new_calls_app. simpl.
    now rewrite <- app_assoc.
  - intros Hpw. exists (PyError (py "RuntimeError")). split; [|reflexivity].
    unfold rendered, _fetch_html_rendered, bind, emit, raise. simpl.
    now rewrite Hpw.
Qed.

Lemma best_effort_fallback_policy_witness :
  (_fetch_html_best_effort Fixture.rt Fixture.cfg (py "http://example.com/slow") 15
     Fixture.w0
   = (Raise FetchTimeout,
      snd (_fetch_html_rendered Fixture.rt (py "http://example.com/slow") 15 Fixture.w0))) /\
  (_fetch_html_best_effort Fixture.rt Fixture.cfg (py "http://example.com/crash") 15
     Fixture.w0
   = _fetch_html Fixture.rt Fixture.cfg (py "http://example.com/crash") 15
       (snd (_fetch_html_rendered Fixture.rt (py "http://example.com/crash") 15 Fixture.w0))).
Proof.
  split.
  - refine (proj1 (proj2 (proj1 (proj2 (proj2
              (best_effort_fallback_policy Fixture.rt Fixture.cfg
                 (py "http://example.com/slow") 15 Fixture.w0)))
              FetchTimeout _ _))); vm_compute; reflexivity.
  - refine (proj1 (proj1 (proj2 (proj2 (proj2
              (best_effort_fallback_policy Fixture.rt Fixture.cfg
                 (py "http://example.com/crash") 15 Fixture.w0))))
              (FetchFailure (py "net::ERR_ABORTED")) _ _)); vm_compute; reflexivity.
Defined.

(** ** The body of a streamed response *)

Section BodyProofs.

Variable rt : Runtime.
Variable cfg : Config.

Lemma total_length_cons (chunk : bytes) (chunks : list bytes) :
  total_length (chunk :: chunks) = (Z.of_nat (length chunk) + total_length chunks)%Z.
Proof. unfold total_length. simpl. rewrite length_app. lia. Qed.


(** Chunks that fit are accumulated. *)
Lemma read_body_app (pre rest : list bytes) (err : option str) (buf : bytes) :
  (Z.of_nat (length buf) + total_length pre <= MAX_HTML_BYTES cfg)%Z ->
  read_body cfg (pre ++ rest) err buf = read_body cfg rest err (buf ++ concat pre).
Proof.
  revert buf. induction pre as [|chunk pre IH]; intros buf H; simpl.
  - now rewrite app_nil_r.
  - rewrite total_length_cons in H.
    assert (Hp : (0 <= total_length pre)%Z) by (unfold total_length; lia).
    destruct chunk as [|b chunk]; [simpl; apply IH; simpl in H; lia|].
    destruct (Z.ltb_spec (MAX_HTML_BYTES cfg)
                (Z.of_nat (length (buf ++ b :: chunk)))) as [Hlt|Hge].
    + rewrite length_app in Hlt. lia.
    + rewrite IH; [now rewrite <- app_assoc|].
      rewrite length_app. lia.
Qed.








End BodyProofs.



(** ** Authentication *)

(** C10.  The check passes or raises [Unauthorized], and it raises exactly
    when the configured key, trimmed, is not empty and differs from the
    trimmed [x-api-key] header, a missing header counting as empty.  Without
    a key in the environment, or with an empty one, every request passes. *)
Theorem check_api_key_unauthorized_iff (cfg : Config) (request : Request) :
  (_check_api_key cfg request = Ok tt \/
   _check_api_key cfg request = Raise Unauthorized) /\
  (_check_api_key cfg request = Raise Unauthorized <->
   API_KEY cfg <> [] /\
   strip (or_empty (headers request !! py "x-api-key")) <> API_KEY cfg) /\
  (forall redirects max_bytes,
      _check_api_key {| EXTRACT_API_KEY := None; MAX_REDIRECTS := redirects;
                        MAX_HTML_BYTES := max_bytes |} request = Ok tt /\
      _check_api_key {| EXTRACT_API_KEY := Some []; MAX_REDIRECTS := redirects;
                        MAX_HTML_BYTES := max_bytes |} request = Ok tt).
Proof.
  split; [|split].
  - unfold _check_api_key. destruct (negb (nonempty (API_KEY cfg))); [now left|].
    destruct (negb (str_eqb _ _)); [now right|now left].
  - unfold _check_api_key, str_eqb.
    destruct (API_KEY cfg) as [|c k] eqn:Ek; simpl.
    + split; [discriminate|]. intros [H _]. now contradiction H.
    + destruct (bool_decide_reflect
                  (strip (or_empty (headers request !! py "x-api-key")) = c :: k))
        as [Heq|Hne]; simpl.
      * split; [discriminate|]. intros [_ H]. now contradiction H.
      * split; [intros _; split; [discriminate|exact Hne]|reflexivity].
  - intros. split; reflexivity.
Qed.

(** * Further properties of the service *)

(** ** Timeouts and the request *)

(** X1.  Whatever the raw value and the default, the parsed timeout lies
    between 1 and 60 seconds. *)
Theorem parse_timeout_in_range (rt : Runtime) (raw : PyVal) (default_s : Z) :
  (1 <= _parse_timeout_s rt raw default_s <= 60)%Z.
Proof. unfold _parse_timeout_s. lia. Qed.

Section RequestProofs.

Variable rt : Runtime.

Lemma validate_then_ret_run (raw : str) (t : Z) (w : World) :
  (url <- _validate_public_http_url rt raw t ;; ret (url, t)) w =
  match _validate_public_http_url rt raw t w with
  | (Ok url, w') => (Ok (url, t), w')
  | (Raise e, w') => (Raise e, w')
  end.
Proof. reflexivity. Qed.

(** What [_extract_input] does once the URL and the timeout are chosen. *)
Lemma extract_input_ok (request : Request) (body_json : BodyJson)
    (body_text : str) (w w' : World) (url : str) (t : Z) :
  _extract_input rt request body_json body_text w = (Ok (url, t), w') ->
  exists raw,
    _validate_public_http_url rt raw t w = (Ok url, w') /\ url = clean_url raw.
Proof.
  assert (Hv : forall raw t0,
             (u <- _validate_public_http_url rt raw t0 ;; ret (u, t0)) w
             = (Ok (url, t), w') ->
             exists raw, _validate_public_http_url rt raw t w = (Ok url, w')
                         /\ url = clean_url raw).
  { intros raw t0. rewrite validate_then_ret_run.
    destruct (_validate_public_http_url rt raw t0 w) as [[u|e] w1] eqn:E;
      intros H; inversion H; subst.
    exists raw. split; [exact E|].
    apply (validate_returns_clean rt raw t w). now rewrite E. }
  unfold _extract_input.
  destruct (nonempty (strip (or_empty (query_params request !! py "url"))));
    [apply Hv|].
  match goal with
  | |- context [bind ?m _ w] => unfold bind at 1; destruct (m w) as [[[v t0]|e] w1] eqn:E
  end; [|discriminate].
  assert (w1 = w) as ->.
  { revert E. match goal with |- context [py_truthy ?x] => destruct (py_truthy x) end; simpl.
    - unfold ret. intros H; now inversion H.
    - unfold bind, lift, ret.
      destruct (_extract_url_and_timeout_from_text rt body_text);
        [intros H; now inversion H|discriminate]. }
  simpl. destruct (py_truthy v); simpl; [apply Hv|discriminate].
Qed.

End RequestProofs.

(** X2.  When [_extract_input] returns, the URL it returns is the cleaned
    form of a candidate that [_validate_public_http_url] accepted with the
    returned timeout, in the same world, and the timeout lies between 1 and
    60 seconds. *)
Theorem extract_input_returns_validated (rt : Runtime) (request : Request)
    (body_json : BodyJson) (body_text : str) (w w' : World) (url : str) (t : Z) :
  _extract_input rt request body_json body_text w = (Ok (url, t), w') ->
  (exists raw,
      _validate_public_http_url rt raw t w = (Ok url, w') /\ url = clean_url raw) /\
  (1 <= t <= 60)%Z.
Proof.
  intros H. split; [now apply extract_input_ok with request body_json body_text|].
  apply extract_input_timeout in H as [-> _].
  unfold FetchBudget_effective, clamp.
  repeat match goal with
         | |- context [(?a <? ?b)%Z] => destruct (Z.ltb_spec a b)
         end; lia.
Qed.

Lemma extract_input_returns_validated_witness :
  (exists raw,
      _validate_public_http_url Fixture.rt raw 60 Fixture.w0
      = (Ok (py "http://example.com/"),
         with_call Fixture.w0 (EvGetAddrInfo (py "example.com") 80 (Some 3%Z)))
      /\ py "http://example.com/" = clean_url raw) /\
  (1 <= 60 <= 60)%Z.
Proof.
  refine (extract_input_returns_validated Fixture.rt Fixture.query_request
            BodyOther [] Fixture.w0 _ (py "http://example.com/") 60%Z _).
  vm_compute. reflexivity.
Defined.

(** X3.  A URL in the query string takes precedence over the body: when the
    [url] query parameter is not blank, the outcome does not depend on the
    parsed body or on the body text. *)
Theorem extract_input_query_precedence (rt : Runtime) (request : Request)
    (body_json body_json' : BodyJson) (body_text body_text' : str) (w : World) :
  nonempty (strip (or_empty (query_params request !! py "url"))) = true ->
  _extract_input rt request body_json body_text w =
  _extract_input rt request body_json' body_text' w.
Proof. intros H. unfold _extract_input. now rewrite H. Qed.

Lemma extract_input_query_precedence_witness :
  _extract_input Fixture.rt Fixture.query_request BodyOther [] Fixture.w0 =
  _extract_input Fixture.rt Fixture.query_request
    (BodyDict {[ py "url" := PyStr (py "http://intranet.example/") ]})
    (py "url=http://mixed.example/") Fixture.w0.
Proof.
  apply (extract_input_query_precedence Fixture.rt Fixture.query_request).
  vm_compute. reflexivity.
Defined.

(** X4.  Without a URL anywhere (a blank or missing query parameter, no
    truthy [url] in a JSON object, none found in the body text) the request
    is refused before anything is validated or resolved: the world is
    unchanged.  It is refused with [InvalidURL], unless the scan of the body
    text raised: the [ValueError] of [int], for a number after [timeout=]
    that it refuses, leaves [_extract_input] as it is. *)
Theorem extract_input_without_url (rt : Runtime) (request : Request)
    (body_json : BodyJson) (body_text : str) (w : World) :
  nonempty (strip (or_empty (query_params request !! py "url"))) = false ->
  py_truthy (match body_json with
             | BodyDict d => dict_get d (py "url")
             | BodyOther => PyNone
             end) = false ->
  truthy (text_url rt body_text) = false ->
  _extract_input rt request body_json body_text w =
  (match _extract_url_and_timeout_from_text rt body_text with
   | Ok _ => Raise InvalidURL
   | Raise e => Raise e
   end, w) /\
  (fst (_extract_input rt request body_json body_text w) = Raise InvalidURL \/
   fst (_extract_input rt request body_json body_text w)
   = Raise (PyError (py "ValueError"))).
Proof.
  intros Hq Hj Hu.
  assert (Hs : match _extract_url_and_timeout_from_text rt body_text with
               | Ok scanned => truthy (fst scanned) = false
               | Raise e => e = PyError (py "ValueError")
               end).
  { revert Hu. unfold text_url, _extract_url_and_timeout_from_text.
    destruct (negb (nonempty (strip body_text))); [intros _; reflexivity|].
    destruct (re_search_timeout rt (strip body_text)) as [digits|];
      [destruct (int_of_str rt digits)|]; auto. }
  assert (He : _extract_input rt request body_json body_text w =
               (match _extract_url_and_timeout_from_text rt body_text with
                | Ok _ => Raise InvalidURL
                | Raise e => Raise e
                end, w)).
  { unfold _extract_input. rewrite Hq. unfold bind, lift, ret, raise.
    destruct (_extract_url_and_timeout_from_text rt body_text) as [scanned|e].
    - destruct body_json as [d|]; cbn [fst snd] in *; rewrite Hj; cbn [negb fst snd];
        rewrite Hs, Hj; reflexivity.
    - destruct body_json as [d|]; cbn [fst snd] in *; rewrite Hj; reflexivity. }
  split; [exact He|]. rewrite He. simpl.
  destruct (_extract_url_and_timeout_from_text rt body_text) as [scanned|e];
    [now left|right; now rewrite Hs].
Qed.

Lemma extract_input_without_url_witness :
  _extract_input Fixture.rt {| headers := ∅; query_params := ∅ |}
    (BodyDict {[ py "timeout" := PyInt 30 ]}) (py "no address here") Fixture.w0
  = (Raise InvalidURL, Fixture.w0).
Proof.
  refine (proj1 (extract_input_without_url Fixture.rt
                   {| headers := ∅; query_params := ∅ |}
                   (BodyDict {[ py "timeout" := PyInt 30 ]})
                   (py "no address here") Fixture.w0 _ _ _));
    vm_compute; reflexivity.
Defined.

(** ** Validation and the resolver *)

(** X5.  The resolver is consulted only for a URL that parses, passes the
    checks on scheme, network location, user name, password and host, has a
    host that is neither a local name nor a literal address, and has a
    readable port: in every other case validation makes no call at all. *)
Theorem resolver_called_only_for_checked_domain_names
    (rt : Runtime) (raw_url : str) (timeout_s : Z) (w : World) :
  new_calls w (snd (_validate_public_http_url rt raw_url timeout_s w)) <> [] ->
  exists p prt,
    urlparse rt (clean_url raw_url) = Some p /\
    passes_syntax_checks rt p = true /\
    is_domain_name rt p /\
    port_or_default p = Ok prt /\
    new_calls w (snd (_validate_public_http_url rt raw_url timeout_s w)) =
    [EvGetAddrInfo (checked_hostname rt p) prt (Some (Z.min 3 timeout_s))].
Proof.
  destruct (urlparse rt (clean_url raw_url)) as [p|] eqn:Hp.
  - rewrite (validate_run rt _ _ _ _ Hp).
    destruct (passes_syntax_checks rt p) eqn:Hs; simpl;
      [|rewrite new_calls_same by reflexivity; congruence].
    destruct (is_local_name (checked_hostname rt p)) eqn:Hl; simpl;
      [rewrite new_calls_same by reflexivity; congruence|].
    destruct (ip_address rt (checked_hostname rt p)) as [a|] eqn:Ha; simpl;
      [rewrite new_calls_same by reflexivity; congruence|].
    rewrite dns_check_run.
    destruct (Z.min 3 timeout_s <? 0)%Z; simpl;
      [rewrite new_calls_same by reflexivity; congruence|].
    destruct (port_or_default p) as [prt|e] eqn:Eport; simpl;
      [|rewrite new_calls_same by reflexivity; congruence].
    intros _. exists p, prt. repeat split; try assumption.
    destruct (getaddrinfo rt (checked_hostname rt p) prt) as [infos|];
      [destruct (forallb (_is_public_ip rt) infos)|]; simpl;
      now apply new_calls_app.
  - unfold _validate_public_http_url. rewrite Hp. simpl.
    rewrite new_calls_same by reflexivity. congruence.
Qed.

Lemma resolver_called_only_for_checked_domain_names_witness :
  exists p prt,
    urlparse Fixture.rt (clean_url (py "http://intranet.example/")) = Some p /\
    passes_syntax_checks Fixture.rt p = true /\
    is_domain_name Fixture.rt p /\
    port_or_default p = Ok prt /\
    new_calls Fixture.w0
      (snd (_validate_public_http_url Fixture.rt (py "http://intranet.example/") 2
              Fixture.w0)) =
    [EvGetAddrInfo (checked_hostname Fixture.rt p) prt (Some (Z.min 3 2))].
Proof.
  apply (resolver_called_only_for_checked_domain_names Fixture.rt
           (py "http://intranet.example/") 2 Fixture.w0).
  vm_compute. discriminate.
Defined.

(** ** Whitespace folding *)

Lemma collapse_ws_from_spaced (in_run : bool) (s : str) :
  single_spaced (collapse_ws_from in_run s) = true /\
  (in_run = true -> clean_head isspace (collapse_ws_from in_run s) = true).
Proof.
  revert in_run. induction s as [|c s IH]; intros in_run; simpl; [auto|].
  destruct (isspace c) eqn:Ec.
  - destruct in_run.
    + apply IH.
    + destruct (IH true) as [H1 H2]. simpl.
      rewrite H1, (H2 eq_refl). split; [reflexivity|discriminate].
  - destruct (IH false) as [H1 _]. simpl. rewrite Ec, H1. auto.
Qed.

Lemma single_spaced_app (a b : str) :
  single_spaced (a ++ b) = true ->
  single_spaced a = true /\ single_spaced b = true.
Proof.
  induction a as [|c a IH]; simpl; [auto|].
  intros H. apply andb_true_iff in H as [H H3].
  apply andb_true_iff in H as [H1 H2].
  destruct (IH H3) as [Ha Hb]. rewrite H1, Ha. split; [|exact Hb].
  destruct a; simpl in *; [now rewrite orb_true_r|now rewrite H2].
Qed.

Lemma single_spaced_strip (s : str) :
  single_spaced s = true -> single_spaced (strip s) = true.
Proof.
  intros H. unfold strip, strip_by.
  destruct (lstrip_by_split isspace s) as [w [E _]].
  rewrite E in H. apply single_spaced_app in H as [_ H].
  destruct (rstrip_by_split isspace (lstrip_by isspace s)) as [w' [E' _]].
  rewrite E' in H. now apply single_spaced_app in H as [H _].
Qed.

Lemma single_spaced_firstn (n : nat) (s : str) :
  single_spaced s = true -> single_spaced (firstn n s) = true.
Proof.
  intros H. rewrite <- (firstn_skipn n s) in H.
  now apply single_spaced_app in H as [H _].
Qed.

Lemma clean_head_firstn (f : N -> bool) (n : nat) (s : str) :
  clean_head f s = true -> clean_head f (firstn n s) = true.
Proof. destruct n, s; auto. Qed.

(** X6.  The reason shown for a failed fetch has at most 200 characters,
    does not begin with whitespace, and contains no whitespace but single
    spaces: no newline, tab or run of spaces survives. *)
Theorem short_fetch_reason_normalised (msg cls : str) :
  length (_short_fetch_reason msg cls) <= 200 /\
  clean_head isspace (_short_fetch_reason msg cls) = true /\
  single_spaced (_short_fetch_reason msg cls) = true.
Proof.
  unfold _short_fetch_reason.
  set (m := if nonempty msg then msg else cls).
  split; [apply firstn_le_length|]. split.
  - apply clean_head_firstn, strip_trimmed.
  - apply single_spaced_firstn, single_spaced_strip.
    apply (collapse_ws_from_spaced false m).
Qed.

(** ** Fetching *)

Section FetchMore.

Variable rt : Runtime.
Variable cfg : Config.

Lemma strip_nonempty_trimmed (s : str) :
  nonempty (strip s) = true -> strip s <> [] /\ trimmed isspace (strip s).
Proof.
  intros H. split; [|apply strip_trimmed].
  destruct (strip s); [discriminate|discriminate].
Qed.

Lemma fetch_html_rendered_ok (url : str) (t : Z) (w : World) (html : str) :
  fst (_fetch_html_rendered rt url t w) = Ok html ->
  html <> [] /\ trimmed isspace html.
Proof.
  unfold _fetch_html_rendered, bind, emit, raise, ret. simpl.
  destruct (playwright rt url (Z.min 60 t * 1000)) as [| | |h]; try discriminate.
  destruct (nonempty (strip (or_empty h))) eqn:E; simpl; [|discriminate].
  intros [= <-]. now apply strip_nonempty_trimmed.
Qed.

Lemma fetch_html_ok_trimmed (url : str) (t : Z) (w : World) (html : str) :
  fst (_fetch_html rt cfg url t w) = Ok html ->
  html <> [] /\ trimmed isspace html.
Proof.
  unfold _fetch_html, bind, emit, lift, raise, ret. simpl.
  destruct (session_get rt url (Z.min 5 t) t) as [| | | |r]; try discriminate.
  destruct (400 <=? status_code r)%Z; [discriminate|].
  destruct (read_body cfg (body_chunks r) (body_error r) []) as [buf|];
    [|discriminate].
  destruct (response_encoding r) as [enc|]; [|discriminate].
  destruct (decode rt enc buf) as [text|]; [|discriminate]. simpl.
  destruct (nonempty (strip text)) eqn:E; simpl; [|discriminate].
  intros [= <-]. now apply strip_nonempty_trimmed.
Qed.

Lemma fetch_html_rendered_raises (url : str) (t : Z) (w : World) (e : exn) :
  fst (_fetch_html_rendered rt url t w) = Raise e -> fetch_status_ok e = true.
Proof.
  unfold _fetch_html_rendered, bind, emit, raise, ret. simpl.
  destruct (playwright rt url (Z.min 60 t * 1000)) as [| | |h]; simpl;
    try (intros [= <-]; reflexivity).
  destruct (negb (nonempty (strip (or_empty h)))); simpl;
    [intros [= <-]; reflexivity|discriminate].
Qed.

Lemma fetch_html_raises (url : str) (t : Z) (w : World) (e : exn) :
  fst (_fetch_html rt cfg url t w) = Raise e -> fetch_status_ok e = true.
Proof.
  unfold _fetch_html, bind, emit, lift, raise, ret. simpl.
  destruct (session_get rt url (Z.min 5 t) t) as [| | | |r]; simpl;
    try (intros [= <-]; reflexivity).
  destruct (400 <=? status_code r)%Z; simpl; [intros [= <-]; reflexivity|].
  assert (Hr : forall chunks buf e0,
             read_body cfg chunks (body_error r) buf = Raise e0 ->
             fetch_status_ok e0 = true).
  { induction chunks as [|chunk chunks IH]; intros buf e0; simpl.
    - destruct (body_error r); [intros [= <-]; reflexivity|discriminate].
    - destruct chunk as [|b chunk]; [apply IH|].
      destruct (_ <? _)%Z; [intros [= <-]; reflexivity|apply IH]. }
  destruct (read_body cfg (body_chunks r) (body_error r) []) as [buf|e0] eqn:Eb;
    simpl; [|intros [= <-]; now apply Hr in Eb].
  assert (Hd : forall enc e0,
             decode rt enc buf = Raise e0 -> fetch_status_ok e0 = true).
  { intros enc e0. unfold decode.
    destruct buf; [discriminate|].
    destruct (codec_lookup rt enc) as [codec|]; [|intros [= <-]; reflexivity].
    destruct (codec _); [discriminate|intros [= <-]; reflexivity]. }
  assert (Hk : forall enc e0 w1,
             fst (let (r0, w') := lift (decode rt enc buf) w1 in
                  match r0 with
                  | Ok text =>
                      (if negb (nonempty (strip text))
                       then raise (FetchFailure (py "empty html"))
                       else ret (strip text)) w'
                  | Raise e1 => (Raise e1, w')
                  end) = Raise e0 ->
             fetch_status_ok e0 = true).
  { intros enc e0 w1. unfold lift, raise, ret.
    destruct (decode rt enc buf) as [text|e1] eqn:Ed.
    - destruct (negb (nonempty (strip text))); simpl;
        [intros [= <-]; reflexivity|discriminate].
    - simpl. intros [= <-]. now apply Hd with enc. }
  unfold response_encoding, lift, raise, ret in *.
  destruct (truthy (encoding r)); simpl; [apply Hk|].
  destruct (apparent_encoding r) as [v|cls]; simpl; [apply Hk|].
  destruct (str_eqb cls (py "AttributeError")); simpl;
    [apply Hk|intros [= <-]; reflexivity].
Qed.

End FetchMore.

(** X7.  Whichever strategy produced it, the HTML that
    [_fetch_html_best_effort] returns is not empty and neither begins nor
    ends with whitespace. *)
Theorem best_effort_html_nonempty_trimmed
    (rt : Runtime) (cfg : Config) (url : str) (timeout_s : Z) (w : World) (html : str) :
  fst (_fetch_html_best_effort rt cfg url timeout_s w) = Ok html ->
  html <> [] /\ trimmed isspace html.
Proof.
  rewrite best_effort_run.
  destruct (_fetch_html_rendered rt url timeout_s w) as [[h|e] w1] eqn:E.
  - simpl. intros [= <-].
    apply (fetch_html_rendered_ok rt url timeout_s w). now rewrite E.
  - destruct (is_timeout e); [discriminate|].
    apply fetch_html_ok_trimmed.
Qed.

Lemma best_effort_html_nonempty_trimmed_witness :
  py "<p>Hi</p>" <> [] /\ trimmed isspace (py "<p>Hi</p>").
Proof.
  apply (best_effort_html_nonempty_trimmed Fixture.rt Fixture.cfg
           (py "http://example.com/crash") 15 Fixture.w0).
  vm_compute. reflexivity.
Defined.

(** X8.  Fetching never changes the process-wide default timeout, and an
    [HTTPException] it raises has status 502 or 504. *)
Theorem best_effort_errors_and_default_timeout
    (rt : Runtime) (cfg : Config) (url : str) (timeout_s : Z) (w : World) :
  sock_default_timeout (snd (_fetch_html_best_effort rt cfg url timeout_s w))
  = sock_default_timeout w /\
  match fst (_fetch_html_best_effort rt cfg url timeout_s w) with
  | Ok _ => True
  | Raise e => fetch_status_ok e = true
  end.
Proof.
  rewrite best_effort_run.
  pose proof (fetch_html_rendered_world rt url timeout_s w) as Hw.
  pose proof (fetch_html_rendered_raises rt url timeout_s w) as Hr.
  destruct (_fetch_html_rendered rt url timeout_s w) as [[h|e] w1]; simpl in *.
  - subst w1. auto.
  - subst w1. specialize (Hr e eq_refl).
    destruct (is_timeout e); simpl; [auto|].
    rewrite fetch_html_world. split; [reflexivity|].
    destruct (fst (_fetch_html rt cfg url timeout_s _)) as [h|e'] eqn:E; [exact I|].
    now apply fetch_html_raises in E.
Qed.

(** X9.  Empty chunks do not count: reading a body gives what reading it
    without its empty chunks gives. *)
Theorem read_body_skips_empty_chunks
    (cfg : Config) (chunks : list bytes) (err : option str) (buf : bytes) :
  read_body cfg chunks err buf = read_body cfg (nonempty_chunks chunks) err buf.
Proof.
  revert buf. induction chunks as [|chunk chunks IH]; intros buf; [reflexivity|].
  destruct chunk as [|b chunk]; simpl; [apply IH|].
  destruct (_ <? _)%Z; [reflexivity|apply IH].
Qed.

(** X10.  An exception raised while the body is streamed, after chunks that
    fit the cap, leaves [_fetch_html] as it is: it is not turned into a
    [FetchFailure] or a [FetchTimeout]. *)
Theorem streaming_error_propagates
    (rt : Runtime) (cfg : Config) (url : str) (timeout_s : Z) (w : World)
    (r : Response) (cls : str) :
  session_get rt url (Z.min 5 timeout_s) timeout_s = GetResponse r ->
  (status_code r < 400)%Z ->
  body_error r = Some cls ->
  (total_length (body_chunks r) <= MAX_HTML_BYTES cfg)%Z ->
  fst (_fetch_html rt cfg url timeout_s w) = Raise (PyError cls).
Proof.
  intros Hg Hst He Hl.
  unfold _fetch_html, bind, emit, lift, raise, ret. simpl. rewrite Hg.
  destruct (Z.leb_spec 400 (status_code r)); [lia|].
  pose proof (read_body_app cfg (body_chunks r) [] (body_error r) []) as Hrb.
  rewrite app_nil_r in Hrb. rewrite Hrb by (simpl; lia).
  simpl. now rewrite He.
Qed.

Lemma streaming_error_propagates_witness :
  fst (_fetch_html rt_broken_stream Fixture.cfg (py "http://example.com/") 15
         Fixture.w0)
  = Raise (PyError (py "ChunkedEncodingError")).
Proof.
  refine (streaming_error_propagates rt_broken_stream Fixture.cfg
            (py "http://example.com/") 15 Fixture.w0 broken_response
            (py "ChunkedEncodingError") _ _ _ _).
  - reflexivity.
  - vm_compute. reflexivity.
  - reflexivity.
  - vm_compute. discriminate.
Defined.

(** ** More on block deduplication *)

Section DedupeMore.

Variable rt : Runtime.

(** The keys of the kept blocks are distinct, not empty and not among those
    seen before. *)
Lemma kept_blocks_keys (sn : gset str) (blocks : list str) :
  NoDup (List.map (block_key rt) (kept_blocks rt sn blocks)) /\
  Forall (fun b => (block_key rt b ∉ sn) /\ block_key rt b <> [])
         (kept_blocks rt sn blocks).
Proof.
  revert sn. induction blocks as [|b blocks IH]; intros sn; simpl.
  - split; constructor.
  - destruct (negb (nonempty b)); [apply IH|].
    destruct (nonempty (block_key rt b)) eqn:Ek; simpl; [|apply IH].
    destruct (bool_decide_reflect (block_key rt b ∈ sn)) as [Hin|Hnin]; [apply IH|].
    destruct (IH ({[block_key rt b]} ∪ sn)) as [Hnd Hall]. split.
    + simpl. constructor; [|exact Hnd].
      intros Hin. apply list_elem_of_In in Hin.
      apply List.in_map_iff in Hin as [b' [Heq Hb']].
      rewrite List.Forall_forall in Hall. destruct (Hall b' Hb') as [Hn _].
      apply Hn. rewrite Heq. apply elem_of_union. left. now apply elem_of_singleton.
    + constructor.
      * split; [exact Hnin|]. destruct (block_key rt b); [discriminate|discriminate].
      * eapply List.Forall_impl; [|exact Hall].
        intros b' [Hn Hne]. split; [|exact Hne].
        intros Hs. apply Hn, elem_of_union. now right.
Qed.

(** The kept blocks are a subsequence of the given ones. *)
Lemma kept_blocks_sublist (sn : gset str) (blocks : list str) :
  sublist (kept_blocks rt sn blocks) blocks.
Proof.
  revert sn. induction blocks as [|b blocks IH]; intros sn; simpl; [constructor|].
  destruct (negb (nonempty b)); [apply sublist_cons, IH|].
  destruct (negb (nonempty (block_key rt b)) || bool_decide (block_key rt b ∈ sn));
    [apply sublist_cons, IH|apply sublist_skip, IH].
Qed.

(** Every given block with a key has its key seen before or kept. *)
Lemma kept_blocks_complete (sn : gset str) (blocks : list str) (b : str) :
  In b blocks -> b <> [] -> block_key rt b <> [] ->
  block_key rt b ∈ sn \/
  exists b', In b' (kept_blocks rt sn blocks) /\ block_key rt b' = block_key rt b.
Proof.
  revert sn. induction blocks as [|b0 blocks IH]; intros sn Hin Hb Hk; [contradiction|].
  simpl in Hin |- *. destruct Hin as [->|Hin].
  - destruct b as [|c b]; [congruence|]. simpl.
    destruct (block_key rt (c :: b)) as [|k ks] eqn:Ek; [congruence|]. simpl.
    destruct (decide (k :: ks ∈ sn)) as [Hs|Hs]; [now left|].
    right. exists (c :: b). rewrite (bool_decide_eq_false_2 _ Hs).
    split; [now left|exact Ek].
  - destruct (negb (nonempty b0)); [now apply IH|].
    destruct (negb (nonempty (block_key rt b0)) || bool_decide (block_key rt b0 ∈ sn));
      [now apply IH|].
    destruct (IH ({[block_key rt b0]} ∪ sn) Hin Hb Hk) as [Hs|[b' [Hb' Heq]]].
    + apply elem_of_union in Hs as [Hs|Hs]; [|now left].
      apply elem_of_singleton in Hs. right. exists b0. split; [now left|now symmetry].
    + right. exists b'. split; [now right|exact Heq].
Qed.

(** The output of [_dedupe_blocks] is the join of the kept blocks, and it
    splits into them. *)
Lemma dedupe_blocks_join (text : str) :
  _dedupe_blocks rt text = join_nn (kept_blocks rt ∅ (input_blocks text)) /\
  Forall is_block (kept_blocks rt ∅ (input_blocks text)).
Proof.
  assert (Hb : Forall is_block (kept_blocks rt ∅ (input_blocks text))).
  { assert (H1 : Forall (fun b => trimmed isspace b /\ has_nn b = false)
                   (input_blocks text)).
    { apply List.Forall_forall. intros b Hin.
      apply List.in_map_iff in Hin as [p [<- Hin]].
      pose proof (split_nn_pieces text) as Hp.
      rewrite List.Forall_forall in Hp.
      split; [apply strip_trimmed|apply has_nn_strip, Hp, Hin]. }
    pose proof (kept_blocks_Forall rt _ ∅ _ H1) as H2.
    pose proof (kept_blocks_nonempty rt ∅ (input_blocks text)) as H3.
    rewrite List.Forall_forall in *. intros b Hin.
    destruct (H2 b Hin). split; [now apply H3|now split]. }
  split; [|exact Hb].
  unfold _dedupe_blocks. fold (input_blocks text). rewrite dedupe_loop. simpl.
  apply strip_id, join_blocks_trimmed, Hb.
Qed.

Lemma dedupe_blocks_split (text : str) :
  _dedupe_blocks rt text <> [] ->
  split_nn (_dedupe_blocks rt text) = kept_blocks rt ∅ (input_blocks text).
Proof.
  destruct (dedupe_blocks_join text) as [E Hb]. rewrite E. intros Hne.
  apply split_join_blocks; [|exact Hb]. intros H0. rewrite H0 in Hne. now apply Hne.
Qed.

End DedupeMore.

(** X11.  The blocks of a deduplicated text (when it is not empty) are
    non-empty, trimmed and free of blank lines, their keys are not empty and
    pairwise distinct, and they are a subsequence of the trimmed blocks of
    the input: the original order and the original text are kept. *)
Theorem dedupe_blocks_distinct_in_order (rt : Runtime) (text : str) :
  _dedupe_blocks rt text <> [] ->
  let blocks := split_nn (_dedupe_blocks rt text) in
  NoDup (List.map (block_key rt) blocks) /\
  Forall (fun b => is_block b /\ block_key rt b <> []) blocks /\
  sublist blocks (input_blocks text).
Proof.
  intros Hne blocks. unfold blocks. rewrite (dedupe_blocks_split rt text Hne).
  destruct (kept_blocks_keys rt ∅ (input_blocks text)) as [Hnd Hk].
  destruct (dedupe_blocks_join rt text) as [_ Hb].
  split; [exact Hnd|]. split; [|apply kept_blocks_sublist].
  rewrite List.Forall_forall in *. intros b Hin.
  split; [now apply Hb|now apply Hk].
Qed.

Lemma dedupe_blocks_distinct_in_order_witness :
  let text := py "Hello" ++ [NL; NL] ++ py "hello" ++ [NL; NL] ++ py " World" in
  let blocks := split_nn (_dedupe_blocks Fixture.rt text) in
  NoDup (List.map (block_key Fixture.rt) blocks) /\
  Forall (fun b => is_block b /\ block_key Fixture.rt b <> []) blocks /\
  sublist blocks (input_blocks text).
Proof.
  apply (dedupe_blocks_distinct_in_order Fixture.rt). vm_compute. discriminate.
Defined.

(** X12.  No key is lost: every non-empty trimmed block of the input whose
    key is not empty has a block with the same key in the deduplicated
    text. *)
Theorem dedupe_blocks_keeps_every_key (rt : Runtime) (text : str) (b : str) :
  In b (input_blocks text) -> b <> [] -> block_key rt b <> [] ->
  exists b', In b' (split_nn (_dedupe_blocks rt text)) /\
             block_key rt b' = block_key rt b.
Proof.
  intros Hin Hb Hk.
  destruct (kept_blocks_complete rt ∅ (input_blocks text) b Hin Hb Hk)
    as [H0|[b' [Hb' Heq]]]; [now apply not_elem_of_empty in H0|].
  exists b'. split; [|exact Heq].
  rewrite dedupe_blocks_split; [exact Hb'|].
  destruct (dedupe_blocks_join rt text) as [E Hall]. rewrite E.
  destruct (kept_blocks rt ∅ (input_blocks text)) as [|k ks]; [contradiction|].
  apply (join_blocks_trimmed _ Hall). discriminate.
Qed.

Lemma dedupe_blocks_keeps_every_key_witness :
  exists b',
    In b' (split_nn (_dedupe_blocks Fixture.rt
                       (py "Hello" ++ [NL; NL] ++ py "HELLO"))) /\
    block_key Fixture.rt b' = block_key Fixture.rt (py "HELLO").
Proof.
  apply (dedupe_blocks_keeps_every_key Fixture.rt).
  - vm_compute. right. now left.
  - discriminate.
  - vm_compute. discriminate.
Defined.

(** ** More on the length cap *)

Lemma apply_limits_is_trimmed (text : str) : trimmed isspace (_apply_limits text).
Proof.
  destruct (Nat.le_gt_cases (length (strip text)) TEXT_CAP) as [Hs|Hl].
  - rewrite (apply_limits_short text Hs). apply strip_trimmed.
  - rewrite (apply_limits_long text Hl).
    destruct (kept_part (strip text) (strip_trimmed text) Hl) as [Hne [[Hh _] _]].
    apply trimmed_app; try assumption; [discriminate|reflexivity].
Qed.

Lemma apply_limits_length (text : str) :
  length (_apply_limits text) <= TEXT_CAP + 11.
Proof.
  destruct (Nat.le_gt_cases (length (strip text)) TEXT_CAP) as [Hs|Hl].
  - rewrite (apply_limits_short text Hs). lia.
  - rewrite (apply_limits_long text Hl), length_app, marker_length.
    pose proof (rstrip_by_length isspace (firstn TEXT_CAP (strip text))) as H1.
    pose proof (firstn_le_length TEXT_CAP (strip text)) as H2.
    unfold rstrip. lia.
Qed.

(** X13.  The capped text never begins or ends with whitespace, and a text
    that is trimmed and within the cap passes unchanged. *)
Theorem apply_limits_trimmed (text : str) :
  trimmed isspace (_apply_limits text) /\
  (trimmed isspace text -> length text <= TEXT_CAP -> _apply_limits text = text).
Proof.
  split; [apply apply_limits_is_trimmed|].
  intros Ht Hl. rewrite apply_limits_short; rewrite (strip_id _ Ht); auto.
Qed.

Lemma apply_limits_trimmed_witness :
  _apply_limits (py "Hello") = py "Hello".
Proof.
  apply (proj2 (apply_limits_trimmed (py "Hello"))).
  - split; reflexivity.
  - apply Nat.leb_le. vm_compute. reflexivity.
Defined.

(** X14.  The cap after the deduplication, as [extract] applies them: a
    deduplicated text of at most 12000 characters passes the cap
    unchanged. *)
Theorem apply_limits_after_dedupe (rt : Runtime) (text : str) :
  length (_dedupe_blocks rt text) <= TEXT_CAP ->
  _apply_limits (_dedupe_blocks rt text) = _dedupe_blocks rt text.
Proof.
  intros H.
  assert (Hs : strip (_dedupe_blocks rt text) = _dedupe_blocks rt text).
  { destruct (dedupe_blocks_join rt text) as [E Hb]. rewrite E.
    apply strip_id, join_blocks_trimmed, Hb. }
  rewrite apply_limits_short; rewrite Hs; [reflexivity|exact H].
Qed.

Lemma apply_limits_after_dedupe_witness :
  _apply_limits (_dedupe_blocks Fixture.rt (py "Hello" ++ [NL; NL] ++ py "HELLO"))
  = _dedupe_blocks Fixture.rt (py "Hello" ++ [NL; NL] ++ py "HELLO").
Proof.
  apply (apply_limits_after_dedupe Fixture.rt).
  apply Nat.leb_le. vm_compute. reflexivity.
Defined.

(** ** The lead line *)

Lemma last_of_trimmed_app (a b : str) :
  b <> [] -> trimmed isspace b -> clean_head isspace a = true -> a <> [] ->
  trimmed isspace (a ++ b).
Proof. intros Hb [_ Hl] Ha Hne. now apply trimmed_app. Qed.

(** X15.  The lead line is empty exactly when author and date are both
    blank or missing.  Otherwise it is the author label with the trimmed
    author, the date label with the trimmed date, or both with one space
    between them, and it neither begins nor ends with whitespace. *)
Theorem build_lead_shape (author date : option str) :
  let a := strip (or_empty author) in
  let d := strip (or_empty date) in
  _build_lead author date =
    match a, d with
    | [], [] => []
    | _ :: _, [] => AUTHOR_LABEL ++ a
    | [], _ :: _ => DATE_LABEL ++ d
    | _ :: _, _ :: _ => AUTHOR_LABEL ++ a ++ [32%N] ++ DATE_LABEL ++ d
    end /\
  (_build_lead author date = [] <-> a = [] /\ d = []) /\
  trimmed isspace (_build_lead author date).
Proof.
  intros a d. unfold _build_lead. fold a d.
  assert (Ha : trimmed isspace a) by apply strip_trimmed.
  assert (Hd : trimmed isspace d) by apply strip_trimmed.
  assert (HA : forall x, x <> [] -> trimmed isspace x ->
                         trimmed isspace (AUTHOR_LABEL ++ x)).
  { intros x Hx Hx'. apply last_of_trimmed_app; auto; discriminate. }
  assert (HD : forall x, x <> [] -> trimmed isspace x ->
                         trimmed isspace (DATE_LABEL ++ x)).
  { intros x Hx Hx'. apply last_of_trimmed_app; auto; discriminate. }
  destruct a as [|ca a'] eqn:Ea; destruct d as [|cd d'] eqn:Ed; simpl nonempty;
    cbn [app join_with].
  - split; [reflexivity|]. split; [tauto|]. split; reflexivity.
  - rewrite strip_id by (apply HD; [discriminate|exact Hd]).
    split; [reflexivity|]. split; [|apply HD; [discriminate|exact Hd]].
    split; [discriminate|intros [_ H]; discriminate H].
  - rewrite strip_id by (apply HA; [discriminate|exact Ha]).
    split; [reflexivity|]. split; [|apply HA; [discriminate|exact Ha]].
    split; [discriminate|intros [H _]; discriminate H].
  - assert (Ht : trimmed isspace
                   ((AUTHOR_LABEL ++ ca :: a') ++ 32%N :: DATE_LABEL ++ cd :: d')).
    { apply trimmed_app; [discriminate|discriminate|reflexivity|].
      change (32%N :: DATE_LABEL ++ cd :: d')
        with (([32%N] ++ DATE_LABEL) ++ cd :: d').
      apply clean_last_app; [discriminate|apply Hd]. }
    rewrite strip_id by exact Ht.
    split; [now rewrite <- app_assoc|]. split; [|exact Ht].
    split; [discriminate|intros [H _]; discriminate H].
Qed.

(** ** Runs of newlines *)

Lemma has_nnn_cons (c : N) (s : str) : has_nnn (c :: s) = false -> has_nnn s = false.
Proof.
  destruct s as [|d [|e s]]; [reflexivity..|].
  change (has_nnn (c :: d :: e :: s))
    with ((c =? NL)%N && (d =? NL)%N && (e =? NL)%N || has_nnn (d :: e :: s)).
  intros H. now apply orb_false_iff in H.
Qed.

Lemma has_nnn_app_r (a b : str) : has_nnn (a ++ b) = false -> has_nnn b = false.
Proof.
  induction a as [|c a IH]; simpl app; [auto|].
  intros H. apply IH. now apply has_nnn_cons in H.
Qed.

Lemma has_nnn_app_l (a b : str) : has_nnn (a ++ b) = false -> has_nnn a = false.
Proof.
  induction a as [|c a IH]; [reflexivity|].
  destruct a as [|d [|e a]]; [reflexivity..|].
  change (has_nnn ((c :: d :: e :: a) ++ b))
    with ((c =? NL)%N && (d =? NL)%N && (e =? NL)%N
          || has_nnn ((d :: e :: a) ++ b)).
  change (has_nnn (c :: d :: e :: a))
    with ((c =? NL)%N && (d =? NL)%N && (e =? NL)%N || has_nnn (d :: e :: a)).
  intros H. apply orb_false_iff in H as [H1 H2]. rewrite H1. simpl. now apply IH.
Qed.

Lemma has_nnn_strip (s : str) : has_nnn s = false -> has_nnn (strip s) = false.
Proof.
  intros H. unfold strip, strip_by.
  destruct (lstrip_by_split isspace s) as [w [E _]].
  rewrite E in H. apply has_nnn_app_r in H.
  destruct (rstrip_by_split isspace (lstrip_by isspace s)) as [w' [E' _]].
  rewrite E' in H. now apply has_nnn_app_l in H.
Qed.

(** Three newlines in a row: a newline before two leading newlines, or
    three in a row later. *)
Lemma has_nnn_leading (c : N) (s : str) :
  has_nnn (c :: s) = ((c =? NL)%N && (2 <=? leading_nls s)) || has_nnn s.
Proof.
  destruct s as [|d [|e s]]; simpl.
  - now rewrite andb_false_r.
  - destruct (d =? NL)%N; now rewrite andb_false_r.
  - destruct (c =? NL)%N, (d =? NL)%N, (e =? NL)%N; reflexivity.
Qed.

Lemma squeeze_newlines_from_ok (run : nat) (s : str) :
  run <= 2 ->
  has_nnn (squeeze_newlines_from run s) = false /\
  leading_nls (squeeze_newlines_from run s) + run <= 2.
Proof.
  revert run. induction s as [|c s IH]; intros run Hrun; simpl; [split; [reflexivity|lia]|].
  destruct (N.eqb_spec c NL) as [->|Hc].
  - destruct run as [|[|run]].
    + destruct (IH 1 ltac:(lia)) as [H1 H2].
      rewrite has_nnn_leading, H1. simpl leading_nls.
      split; [|lia]. rewrite orb_false_r. apply andb_false_iff. right.
      apply Nat.leb_gt. lia.
    + destruct (IH 2 ltac:(lia)) as [H1 H2].
      rewrite has_nnn_leading, H1. simpl leading_nls.
      split; [|lia]. rewrite orb_false_r. apply andb_false_iff. right.
      apply Nat.leb_gt. lia.
    + assert (run = 0) as -> by lia. apply (IH 2). lia.
  - destruct (IH 0 ltac:(lia)) as [H1 H2].
    rewrite has_nnn_leading, H1. simpl.
    destruct (N.eqb_spec c NL); [contradiction|]. simpl. split; [reflexivity|lia].
Qed.

Lemma leading_nls_bound (s : str) : has_nnn s = false -> leading_nls s <= 2.
Proof.
  destruct s as [|c s]; [simpl; lia|].
  rewrite has_nnn_leading. intros H. apply orb_false_iff in H as [H _].
  cbn [leading_nls]. destruct (c =? NL)%N; [|lia].
  cbn [andb] in H. apply Nat.leb_gt in H. lia.
Qed.

Lemma squeeze_newlines_from_id (run : nat) (s : str) :
  has_nnn s = false -> leading_nls s + run <= 2 ->
  squeeze_newlines_from run s = s.
Proof.
  revert run. induction s as [|c s IH]; intros run Hn Hl; [reflexivity|].
  pose proof (leading_nls_bound _ (has_nnn_cons _ _ Hn)) as Hb.
  rewrite has_nnn_leading in Hn. apply orb_false_iff in Hn as [Hn1 Hn2].
  cbn [squeeze_newlines_from leading_nls] in *.
  destruct (c =? NL)%N.
  - destruct run as [|[|run]]; [| |lia]; f_equal; apply IH; auto; lia.
  - f_equal. apply IH; auto. lia.
Qed.

Lemma squeeze_newlines_no_nnn (s : str) : has_nnn (squeeze_newlines s) = false.
Proof. apply (squeeze_newlines_from_ok 0 s). lia. Qed.

Lemma squeeze_newlines_id (s : str) : has_nnn s = false -> squeeze_newlines s = s.
Proof.
  intros Hn. apply squeeze_newlines_from_id; [exact Hn|].
  pose proof (leading_nls_bound s Hn). lia.
Qed.

(** X16.  [re.sub(r"\n{3,}", "\n\n", s)], as modelled, leaves no three
    newlines in a row, and changes nothing in a string that has none. *)
Theorem squeeze_newlines_spec (s : str) :
  has_nnn (squeeze_newlines s) = false /\
  (has_nnn s = false -> squeeze_newlines s = s).
Proof. split; [apply squeeze_newlines_no_nnn|apply squeeze_newlines_id]. Qed.

Lemma squeeze_newlines_spec_witness :
  squeeze_newlines (py "a" ++ [NL; NL] ++ py "b") = py "a" ++ [NL; NL] ++ py "b".
Proof.
  apply (proj2 (squeeze_newlines_spec (py "a" ++ [NL; NL] ++ py "b"))).
  vm_compute. reflexivity.
Defined.

(** ** Blank lines in the deduplicated text *)

Lemma clean_last_cons (f : N -> bool) (c d : N) (s : str) :
  clean_last f (c :: d :: s) = clean_last f (d :: s).
Proof.
  rewrite !clean_last_rev. simpl rev.
  destruct (rev s ++ [d]) as [|x l] eqn:E; [now destruct (rev s)|reflexivity].
Qed.

Lemma clean_last_one (f : N -> bool) (c : N) : clean_last f [c] = negb (f c).
Proof. reflexivity. Qed.

Lemma leading_nls_clean_head (s : str) :
  clean_head isspace s = true -> leading_nls s = 0.
Proof.
  destruct s as [|c s]; [reflexivity|]. simpl. intros H.
  destruct (N.eqb_spec c NL) as [->|]; [discriminate H|reflexivity].
Qed.

Lemma has_nnn_block_then_sep (b rest : str) :
  has_nn b = false -> clean_last isspace b = true ->
  leading_nls rest = 0 -> has_nnn rest = false ->
  has_nnn (b ++ NL :: NL :: rest) = false.
Proof.
  intros Hn Hc Hl Hr. induction b as [|c b IH].
  - simpl app. rewrite !has_nnn_leading. cbn [leading_nls].
    rewrite N.eqb_refl, Hl, Hr. reflexivity.
  - simpl app. rewrite has_nnn_leading.
    assert (Hb : has_nn b = false) by now apply has_nn_cons in Hn.
    destruct b as [|d b].
    + rewrite clean_last_one in Hc.
      destruct (N.eqb_spec c NL) as [->|]; [discriminate Hc|].
      simpl andb. simpl orb. apply IH; auto.
    + rewrite clean_last_cons in Hc. rewrite (IH Hb Hc), orb_false_r.
      change (has_nn (c :: d :: b))
        with ((c =? NL)%N && (d =? NL)%N || has_nn (d :: b)) in Hn.
      apply orb_false_iff in Hn as [Hn _].
      simpl app. cbn [leading_nls].
      destruct (c =? NL)%N; [|reflexivity]. simpl in Hn. now rewrite Hn.
Qed.

Lemma has_nn_no_nnn (b : str) : has_nn b = false -> has_nnn b = false.
Proof.
  induction b as [|c b IH]; [reflexivity|]. intros Hn.
  rewrite has_nnn_leading, IH by now apply has_nn_cons in Hn.
  rewrite orb_false_r. destruct b as [|d b]; [now rewrite andb_false_r|].
  change (has_nn (c :: d :: b))
    with ((c =? NL)%N && (d =? NL)%N || has_nn (d :: b)) in Hn.
  apply orb_false_iff in Hn as [Hn _]. cbn [leading_nls].
  destruct (c =? NL)%N; [|reflexivity]. simpl in Hn. now rewrite Hn.
Qed.

Lemma join_blocks_no_nnn (bs : list str) :
  Forall is_block bs -> has_nnn (join_nn bs) = false.
Proof.
  induction bs as [|b bs IH]; intros H; [reflexivity|].
  inversion H as [|? ? [Hne [[Hh Hl] Hn]] Hbs]; subst.
  destruct bs as [|b' bs]; [simpl; now apply has_nn_no_nnn|].
  change (join_nn (b :: b' :: bs)) with (b ++ NL :: NL :: join_nn (b' :: bs)).
  apply has_nnn_block_then_sep; auto.
  apply leading_nls_clean_head, (join_blocks_trimmed _ Hbs).
Qed.

(** X17.  The deduplicated text contains no three newlines in a row: its
    blocks are separated by exactly one blank line. *)
Theorem dedupe_blocks_no_triple_newline (rt : Runtime) (text : str) :
  has_nnn (_dedupe_blocks rt text) = false.
Proof.
  destruct (dedupe_blocks_join rt text) as [-> Hb]. now apply join_blocks_no_nnn.
Qed.

(** ** Code-block formatting of prose *)

Lemma is_blank_isspace (c : N) : is_blank c = true -> isspace c = true.
Proof.
  unfold is_blank. intros H. apply orb_true_iff in H as [H|H];
    apply N.eqb_eq in H; subst; reflexivity.
Qed.

Lemma replace_crlf_id (s : str) : Forall (fun c => c <> 13%N) s -> replace_crlf s = s.
Proof.
  induction s as [|c s IH]; intros H; [reflexivity|].
  inversion H as [|? ? Hc Hs]; subst.
  destruct s as [|d s]; [reflexivity|].
  change (replace_crlf (c :: d :: s))
    with (if (c =? 13)%N && (d =? 10)%N then NL :: replace_crlf s
          else c :: replace_crlf (d :: s)).
  destruct (N.eqb_spec c 13); [contradiction|]. cbn [andb]. now rewrite (IH Hs).
Qed.

Lemma replace_cr_id (s : str) : Forall (fun c => c <> 13%N) s -> replace_cr s = s.
Proof.
  induction 1 as [|c s Hc _ IH]; [reflexivity|]. unfold replace_cr in *. simpl.
  destruct (N.eqb_spec c 13); [contradiction|]. now rewrite IH.
Qed.

Lemma split_lines_one (s : str) : Forall (fun c => c <> NL) s -> split_lines s = [s].
Proof.
  induction 1 as [|c s Hc _ IH]; [reflexivity|]. simpl.
  destruct (N.eqb_spec c NL); [contradiction|]. now rewrite IH.
Qed.

Lemma no_nl_no_nnn (s : str) : Forall (fun c => c <> NL) s -> has_nnn s = false.
Proof.
  induction 1 as [|c s Hc _ IH]; [reflexivity|].
  rewrite has_nnn_leading, IH. destruct (N.eqb_spec c NL); [contradiction|reflexivity].
Qed.

Lemma drop_blanks_no_nl (pending s : str) :
  Forall (fun c => c <> NL) s ->
  drop_blanks_before_newline_from pending s = pending ++ s.
Proof.
  intros H. revert pending. induction H as [|c s Hc _ IH]; intros pending; simpl.
  - now rewrite app_nil_r.
  - destruct (is_blank c); [now rewrite IH, <- app_assoc|].
    destruct (N.eqb_spec c NL); [contradiction|]. now rewrite IH.
Qed.

Lemma Forall_strip (P : N -> Prop) (s : str) : Forall P s -> Forall P (strip s).
Proof.
  intros H. unfold strip, strip_by.
  destruct (lstrip_by_split isspace s) as [w [E _]].
  rewrite E in H. apply List.Forall_app in H as [_ H].
  destruct (rstrip_by_split isspace (lstrip_by isspace s)) as [w' [E' _]].
  rewrite E' in H. now apply List.Forall_app in H as [H _].
Qed.

Lemma Forall_rstrip (P : N -> Prop) (s : str) : Forall P s -> Forall P (rstrip s).
Proof.
  intros H. destruct (rstrip_split s) as [w [E _]].
  rewrite E in H. now apply List.Forall_app in H as [H _].
Qed.

Lemma Forall_collapse_blanks (P : N -> Prop) (in_run : bool) (s : str) :
  P 32%N -> Forall P s -> Forall P (collapse_blanks_from in_run s).
Proof.
  intros H32 H. revert in_run. induction H as [|c s Hc _ IH]; intros in_run; simpl;
    [constructor|].
  destruct (is_blank c); [destruct in_run|]; auto.
Qed.

Lemma collapse_blanks_from_cons (in_run : bool) (c : N) (s : str) :
  collapse_blanks_from in_run (c :: s) =
  if is_blank c
  then (if in_run then collapse_blanks_from true s
        else 32%N :: collapse_blanks_from true s)
  else c :: collapse_blanks_from false s.
Proof. reflexivity. Qed.

(** Folding the blanks of a string that does not end with whitespace gives
    a string that does not end with whitespace. *)
Lemma collapse_blanks_clean_last (in_run : bool) (s : str) :
  s <> [] -> clean_last isspace s = true ->
  collapse_blanks_from in_run s <> [] /\
  clean_last isspace (collapse_blanks_from in_run s) = true.
Proof.
  revert in_run. induction s as [|c s IH]; intros in_run Hne Hc; [congruence|].
  destruct s as [|d s].
  - rewrite clean_last_one in Hc. apply negb_true_iff in Hc. simpl.
    destruct (is_blank c) eqn:Eb; [apply is_blank_isspace in Eb; congruence|].
    split; [discriminate|]. rewrite clean_last_one. now rewrite Hc.
  - rewrite clean_last_cons in Hc.
    assert (Hd : forall b, collapse_blanks_from b (d :: s) <> [] /\
                           clean_last isspace (collapse_blanks_from b (d :: s)) = true)
      by (intros b; apply IH; [discriminate|exact Hc]).
    rewrite collapse_blanks_from_cons.
    assert (Hx : forall x b, x :: collapse_blanks_from b (d :: s) <> [] /\
                   clean_last isspace (x :: collapse_blanks_from b (d :: s)) = true).
    { intros x b. destruct (Hd b) as [H1 H2]. split; [discriminate|].
      destruct (collapse_blanks_from b (d :: s)) as [|y l]; [congruence|].
      now rewrite clean_last_cons. }
    destruct (is_blank c); [destruct in_run|]; auto.
Qed.

Lemma collapse_blanks_clean_head (s : str) :
  clean_head isspace s = true -> clean_head isspace (collapse_blanks s) = true.
Proof.
  destruct s as [|c s]; [reflexivity|]. unfold collapse_blanks. simpl. intros H.
  destruct (is_blank c) eqn:Eb; [|exact H].
  apply is_blank_isspace in Eb. rewrite Eb in H. discriminate H.
Qed.

Lemma collapse_blanks_trimmed (s : str) :
  trimmed isspace s -> trimmed isspace (collapse_blanks s).
Proof.
  intros [Hh Hl]. split; [now apply collapse_blanks_clean_head|].
  destruct s as [|c s]; [reflexivity|].
  now apply collapse_blanks_clean_last.
Qed.

(** X18.  A line of prose is only whitespace-normalised: for a line without
    newline or carriage return that is not a code line, [_format_code_blocks]
    returns the trimmed line with every run of spaces and tabs folded into
    one space. *)
Theorem format_code_blocks_prose_line (line : str) :
  Forall (fun c => c <> NL /\ c <> 13%N) line ->
  is_code_line line = false ->
  _format_code_blocks line = collapse_blanks (strip line).
Proof.
  intros H Hcode.
  assert (Hnl : Forall (fun c => c <> NL) line)
    by (eapply List.Forall_impl; [|exact H]; now intros c [? _]).
  assert (Hcr : Forall (fun c => c <> 13%N) line)
    by (eapply List.Forall_impl; [|exact H]; now intros c [_ ?]).
  unfold _format_code_blocks, normalize_newlines.
  rewrite (replace_crlf_id _ Hcr), (replace_cr_id _ Hcr), (split_lines_one _ Hnl).
  cbn [fold_left]. unfold format_step. rewrite Hcode. cbn.
  assert (Hx : Forall (fun c => c <> NL) (collapse_blanks (strip line))).
  { apply Forall_collapse_blanks; [discriminate|now apply Forall_strip]. }
  rewrite squeeze_newlines_id by now apply no_nl_no_nnn.
  unfold drop_blanks_before_newline. rewrite drop_blanks_no_nl by exact Hx.
  apply strip_id, collapse_blanks_trimmed, strip_trimmed.
Qed.

Lemma format_code_blocks_prose_line_witness :
  _format_code_blocks (py "  Hello   big  world ") = py "Hello big world".
Proof.
  refine (format_code_blocks_prose_line (py "  Hello   big  world ") _ _).
  - repeat constructor; discriminate.
  - reflexivity.
Defined.

(** ** Code-block formatting: blank lines and trailing blanks *)

Lemma split_lines_no_nl (s : str) :
  Forall (fun line => Forall (fun c => c <> NL) line) (split_lines s).
Proof.
  induction s as [|c s IH]; simpl; [repeat constructor|].
  destruct (N.eqb_spec c NL) as [->|Hc]; [constructor; [constructor|exact IH]|].
  destruct (split_lines s) as [|p ps]; [repeat constructor; exact Hc|].
  inversion IH; subst. constructor; [constructor; assumption|assumption].
Qed.

Lemma clean_last_weaken (f g : N -> bool) (s : str) :
  (forall c, g c = true -> f c = true) ->
  clean_last f s = true -> clean_last g s = true.
Proof.
  intros Hfg. rewrite !clean_last_rev. destruct (rev s) as [|c l]; [reflexivity|].
  simpl. intros H. apply negb_true_iff in H. apply negb_true_iff.
  destruct (g c) eqn:E; [apply Hfg in E; congruence|reflexivity].
Qed.

Lemma drop_leading_empty_suffix (l : list str) :
  exists pre, l = pre ++ drop_leading_empty l.
Proof.
  induction l as [|x l [pre E]]; [now exists []|].
  destruct x as [|c x]; simpl; [|now exists []].
  exists ([] :: pre). simpl. now f_equal.
Qed.

Lemma pop_blank_lines_prefix (out : list str) :
  exists tl, out = pop_blank_lines out ++ tl.
Proof.
  unfold pop_blank_lines. rewrite <- !rev_alt.
  destruct (drop_leading_empty_suffix (rev out)) as [pre E].
  exists (rev pre). rewrite <- rev_app_distr, <- E. now rewrite rev_involutive.
Qed.

Lemma Forall_pop_blank_lines (P : str -> Prop) (out : list str) :
  Forall P out -> Forall P (pop_blank_lines out).
Proof.
  intros H. destruct (pop_blank_lines_prefix out) as [tl E].
  rewrite E in H. now apply List.Forall_app in H as [H _].
Qed.

Lemma line_ok_nil : line_ok [].
Proof. split; [constructor|reflexivity]. Qed.

Lemma line_ok_rstrip (line : str) :
  Forall (fun c => c <> NL) line -> line_ok (rstrip line).
Proof.
  intros H. split; [now apply Forall_rstrip|].
  apply clean_last_weaken with isspace; [apply is_blank_isspace|].
  apply rstrip_by_clean.
Qed.

Lemma line_ok_prose (line : str) :
  Forall (fun c => c <> NL) line -> line_ok (collapse_blanks (strip line)).
Proof.
  intros H. split.
  - apply Forall_collapse_blanks; [discriminate|now apply Forall_strip].
  - apply clean_last_weaken with isspace; [apply is_blank_isspace|].
    apply collapse_blanks_trimmed, strip_trimmed.
Qed.

(** The lines the loop has emitted are all well formed. *)
Lemma format_step_lines (st : FormatState) (line : str) :
  Forall line_ok (fmt_out st) -> Forall (fun c => c <> NL) line ->
  Forall line_ok (fmt_out (format_step st line)).
Proof.
  intros Hout Hline. unfold format_step.
  set (st1 := if is_code_line line && negb (in_code st) then _ else st).
  assert (H1 : Forall line_ok (fmt_out st1)).
  { unfold st1. destruct (is_code_line line && negb (in_code st)); [|exact Hout].
    simpl. pose proof (Forall_pop_blank_lines _ _ Hout) as Hp.
    destruct (pop_blank_lines (fmt_out st)) as [|x l]; [constructor|].
    apply List.Forall_app. split; [exact Hp|]. constructor; [apply line_ok_nil|constructor]. }
  set (st2 := if negb (is_code_line line) && in_code st1 then _ else st1).
  assert (H2 : Forall line_ok (fmt_out st2)).
  { unfold st2. destruct (negb (is_code_line line) && in_code st1); [|exact H1].
    simpl. apply List.Forall_app. split; [now apply Forall_pop_blank_lines|].
    constructor; [apply line_ok_nil|constructor]. }
  destruct (in_code st2); simpl; apply List.Forall_app; (split; [exact H2|]);
    (constructor; [|constructor]);
    [now apply line_ok_rstrip|now apply line_ok_prose].
Qed.

Lemma format_loop_lines (lines : list str) (st : FormatState) :
  Forall line_ok (fmt_out st) ->
  Forall (fun line => Forall (fun c => c <> NL) line) lines ->
  Forall line_ok (fmt_out (fold_left format_step lines st)).
Proof.
  revert st. induction lines as [|line lines IH]; intros st Hst Hl; [exact Hst|].
  inversion Hl; subst. simpl. apply IH; [now apply format_step_lines|assumption].
Qed.

(** A blank before a newline, by the newlines that follow a character. *)
Lemma blank_then_nl_leading (c : N) (s : str) :
  blank_then_nl (c :: s) = is_blank c && (1 <=? leading_nls s) || blank_then_nl s.
Proof.
  destruct s as [|d s]; simpl; [now rewrite andb_false_r|].
  destruct (d =? NL)%N; reflexivity.
Qed.

Lemma blank_then_nl_app_r (a b : str) :
  blank_then_nl (a ++ b) = false -> blank_then_nl b = false.
Proof.
  induction a as [|c a IH]; simpl app; [auto|].
  rewrite blank_then_nl_leading. intros H. apply orb_false_iff in H as [_ H]. auto.
Qed.

Lemma leading_nls_app_l (a b : str) : leading_nls a <= leading_nls (a ++ b).
Proof.
  induction a as [|c a IH]; simpl; [lia|]. destruct (c =? NL)%N; lia.
Qed.

Lemma blank_then_nl_app_l (a b : str) :
  blank_then_nl (a ++ b) = false -> blank_then_nl a = false.
Proof.
  induction a as [|c a IH]; [reflexivity|]. simpl app.
  rewrite !blank_then_nl_leading. intros H. apply orb_false_iff in H as [H1 H2].
  rewrite (IH H2), orb_false_r.
  destruct (is_blank c); [|reflexivity]. cbn [andb] in *.
  apply Nat.leb_gt in H1. apply Nat.leb_gt.
  pose proof (leading_nls_app_l a b). lia.
Qed.

Lemma blank_then_nl_strip (s : str) :
  blank_then_nl s = false -> blank_then_nl (strip s) = false.
Proof.
  intros H. unfold strip, strip_by.
  destruct (lstrip_by_split isspace s) as [w [E _]].
  rewrite E in H. apply blank_then_nl_app_r in H.
  destruct (rstrip_by_split isspace (lstrip_by isspace s)) as [w' [E' _]].
  rewrite E' in H. now apply blank_then_nl_app_l in H.
Qed.

(** A well-formed line and the newline after it bring no blank before a
    newline. *)
Lemma blank_then_nl_line (b t : str) :
  line_ok b -> blank_then_nl t = false -> blank_then_nl (b ++ NL :: t) = false.
Proof.
  intros [Hn Hc] Ht. induction b as [|c b IH].
  - simpl app. rewrite blank_then_nl_leading, Ht. reflexivity.
  - inversion Hn as [|? ? Hcn Hbn]; subst. simpl app.
    rewrite blank_then_nl_leading. destruct b as [|d b].
    + rewrite clean_last_one in Hc. apply negb_true_iff in Hc. rewrite Hc.
      simpl. apply IH; [constructor|reflexivity].
    + rewrite clean_last_cons in Hc. rewrite (IH Hbn Hc), orb_false_r.
      inversion Hbn; subst. simpl.
      destruct (N.eqb_spec d NL); [contradiction|]. now rewrite andb_false_r.
Qed.

Lemma blank_then_nl_no_nl (b : str) :
  Forall (fun c => c <> NL) b -> blank_then_nl b = false.
Proof.
  induction 1 as [|c b Hc Hb IH]; [reflexivity|].
  rewrite blank_then_nl_leading, IH, orb_false_r.
  destruct Hb as [|d b Hd _]; simpl; [now rewrite andb_false_r|].
  destruct (N.eqb_spec d NL); [contradiction|]. now rewrite andb_false_r.
Qed.

Lemma blank_then_nl_join (out : list str) :
  Forall line_ok out -> blank_then_nl (join_with NL out) = false.
Proof.
  induction 1 as [|b out Hb _ IH]; [reflexivity|].
  destruct out as [|b' out]; [simpl; now apply blank_then_nl_no_nl, Hb|].
  change (join_with NL (b :: b' :: out)) with (b ++ NL :: join_with NL (b' :: out)).
  now apply blank_then_nl_line.
Qed.

Lemma squeeze_leading_nls (run : nat) (s : str) :
  leading_nls (squeeze_newlines_from run s) <= leading_nls s.
Proof.
  revert run. induction s as [|c s IH]; intros run; simpl; [lia|].
  destruct (c =? NL)%N eqn:E; [|simpl; rewrite E; lia].
  destruct run as [|[|run]]; simpl; try rewrite E;
    try (specialize (IH 1); lia); try (specialize (IH 2); lia).
Qed.

Lemma squeeze_blank_then_nl (run : nat) (s : str) :
  blank_then_nl s = false -> blank_then_nl (squeeze_newlines_from run s) = false.
Proof.
  revert run. induction s as [|c s IH]; intros run; [reflexivity|].
  rewrite blank_then_nl_leading. intros H. apply orb_false_iff in H as [H1 H2].
  cbn [squeeze_newlines_from].
  destruct (N.eqb_spec c NL) as [->|Hc].
  - destruct run as [|[|run]]; [| |now apply IH];
      rewrite blank_then_nl_leading, (IH _ H2); reflexivity.
  - rewrite blank_then_nl_leading, (IH _ H2), orb_false_r.
    destruct (is_blank c); [|reflexivity]. cbn [andb] in *.
    apply Nat.leb_gt in H1. apply Nat.leb_gt.
    pose proof (squeeze_leading_nls 0 s). lia.
Qed.

Lemma blanks_then_nl (pending s : str) :
  pending <> [] -> forallb is_blank pending = true ->
  blank_then_nl (pending ++ NL :: s) = true.
Proof.
  induction pending as [|c p IH]; [congruence|]. intros _ H.
  apply andb_true_iff in H as [Hc Hp]. simpl app.
  rewrite blank_then_nl_leading, Hc. destruct p as [|d p].
  - reflexivity.
  - rewrite IH; [apply orb_true_r|discriminate|exact Hp].
Qed.

(** Without a blank before a newline, nothing is dropped. *)
Lemma drop_blanks_id (pending s : str) :
  forallb is_blank pending = true ->
  blank_then_nl (pending ++ s) = false ->
  drop_blanks_before_newline_from pending s = pending ++ s.
Proof.
  revert pending. induction s as [|c s IH]; intros pending Hp H; simpl.
  - now rewrite app_nil_r.
  - destruct (is_blank c) eqn:Eb.
    + rewrite IH; [now rewrite <- app_assoc| |now rewrite <- app_assoc].
      rewrite forallb_app, Hp. simpl. now rewrite Eb.
    + assert (Hs : blank_then_nl s = false).
      { apply blank_then_nl_app_r in H.
        rewrite blank_then_nl_leading in H. now apply orb_false_iff in H. }
      rewrite (IH [] eq_refl Hs). simpl.
      destruct (N.eqb_spec c NL) as [->|Hc]; [|reflexivity].
      destruct pending as [|x p]; [reflexivity|].
      rewrite blanks_then_nl in H; [discriminate H|discriminate|exact Hp].
Qed.

(** X19.  The output of [_format_code_blocks] has no three newlines in a
    row, no space or tab before a newline, and no whitespace at either
    end. *)
Theorem format_code_blocks_normalised (text : str) :
  has_nnn (_format_code_blocks text) = false /\
  blank_then_nl (_format_code_blocks text) = false /\
  trimmed isspace (_format_code_blocks text).
Proof.
  unfold _format_code_blocks.
  set (lines := split_lines (normalize_newlines text)).
  set (st := fold_left format_step lines {| fmt_out := []; in_code := false |}).
  set (out := if in_code st then pop_blank_lines (fmt_out st) ++ [[]] else fmt_out st).
  assert (Hst : Forall line_ok (fmt_out st)).
  { apply format_loop_lines; [constructor|apply split_lines_no_nl]. }
  assert (Hout : Forall line_ok out).
  { unfold out. destruct (in_code st); [|exact Hst].
    apply List.Forall_app. split; [now apply Forall_pop_blank_lines|].
    constructor; [apply line_ok_nil|constructor]. }
  assert (Hb : blank_then_nl (squeeze_newlines (join_with NL out)) = false)
    by now apply squeeze_blank_then_nl, blank_then_nl_join.
  unfold drop_blanks_before_newline.
  rewrite (drop_blanks_id [] _ eq_refl Hb). simpl app.
  split; [apply has_nnn_strip, squeeze_newlines_no_nnn|].
  split; [now apply blank_then_nl_strip|apply strip_trimmed].
Qed.

(** ** The HTML-to-text converter *)

Lemma startswith_app (p t : str) : startswith (p ++ t) p = true.
Proof.
  induction p as [|c p IH]; simpl; [now destruct t|]. now rewrite N.eqb_refl.
Qed.

Lemma startswith_spec (s p : str) :
  startswith s p = true -> exists t, s = p ++ t.
Proof.
  revert s. induction p as [|c p IH]; intros s; [now exists s|].
  destruct s as [|d s]; [discriminate|]. simpl. intros H.
  apply andb_true_iff in H as [Hc Hs]. apply N.eqb_eq in Hc. subst d.
  destruct (IH s Hs) as [t ->]. now exists t.
Qed.

Lemma endswith_app (pre suf : str) : endswith (pre ++ suf) suf = true.
Proof. unfold endswith. rewrite rev_app_distr. apply startswith_app. Qed.

Lemma endswith_spec (s suf : str) :
  endswith s suf = true -> exists pre, s = pre ++ suf.
Proof.
  unfold endswith. intros H. apply startswith_spec in H as [t E].
  exists (rev t). apply (f_equal (@rev N)) in E.
  now rewrite rev_involutive, rev_app_distr, rev_involutive in E.
Qed.

Lemma buffer_append (st : ParserState) (s : str) :
  buffer (_append st s) = buffer st ++ s /\
  skip_depth (_append st s) = skip_depth st /\
  in_pre (_append st s) = in_pre st.
Proof.
  unfold _append, buffer. destruct s as [|c s]; simpl.
  - now rewrite app_nil_r.
  - rewrite concat_app. simpl. now rewrite app_nil_r.
Qed.

Lemma ensure_paragraph_break_cases (st : ParserState) :
  (_ensure_paragraph_break st = st /\
   (buffer st = [] \/ endswith (buffer st) [NL; NL] = true)) \/
  (exists k, 1 <= k <= 2 /\
     buffer st <> [] /\
     buffer (_ensure_paragraph_break st) = buffer st ++ repeat NL k /\
     endswith (buffer (_ensure_paragraph_break st)) [NL; NL] = true /\
     skip_depth (_ensure_paragraph_break st) = skip_depth st /\
     in_pre (_ensure_paragraph_break st) = in_pre st).
Proof.
  unfold _ensure_paragraph_break.
  destruct (buffer st) as [|c cur] eqn:Eb; [left; auto|]. cbn [nonempty negb].
  destruct (endswith (c :: cur) [NL; NL]) eqn:E2; [left; auto|].
  right. destruct (endswith (c :: cur) [NL]) eqn:E1.
  - exists 1. destruct (buffer_append st [NL]) as [Hb [Hs Hp]].
    rewrite Hb, Eb. repeat split; auto; try lia; try discriminate.
    apply endswith_spec in E1 as [pre ->].
    rewrite <- app_assoc. apply endswith_app.
  - exists 2. destruct (buffer_append st [NL; NL]) as [Hb [Hs Hp]].
    rewrite Hb, Eb. repeat split; auto; try lia; try discriminate.
    apply endswith_app.
Qed.

(** X20.  After [_ensure_paragraph_break] the buffer is empty or ends with
    a blank line; the buffer only grew, by at most two newlines; the other
    fields are as before; and a second call changes nothing. *)
Theorem ensure_paragraph_break_spec (st : ParserState) :
  let st' := _ensure_paragraph_break st in
  (buffer st' = [] \/ endswith (buffer st') [NL; NL] = true) /\
  (exists k, k <= 2 /\ buffer st' = buffer st ++ repeat NL k) /\
  skip_depth st' = skip_depth st /\ in_pre st' = in_pre st /\
  _ensure_paragraph_break st' = st'.
Proof.
  intros st'. unfold st'.
  destruct (ensure_paragraph_break_cases st)
    as [[-> Hb]|[k [Hk [Hne [Hb [He [Hs Hp]]]]]]].
  - split; [exact Hb|]. split; [exists 0; split; [lia|now rewrite app_nil_r]|].
    repeat split.
    destruct (ensure_paragraph_break_cases st) as [[H _]|[k [_ [Hne [Hb' _]]]]];
      [exact H|].
    unfold _ensure_paragraph_break.
    destruct Hb as [Hb|Hb]; [congruence|].
    destruct (buffer st); [congruence|]. cbn [nonempty negb]. now rewrite Hb.
  - split; [now right|]. split; [exists k; split; [lia|exact Hb]|].
    repeat split; auto.
    set (st1 := _ensure_paragraph_break st) in *.
    unfold _ensure_paragraph_break at 1.
    destruct (buffer st1) as [|c cur] eqn:E; [reflexivity|].
    cbn [nonempty negb]. now rewrite He.
Qed.

Section ParserProofs.

Variable rt : Runtime.

Lemma handle_token_skipped (st : ParserState) (tok : HtmlToken) :
  skip_depth st <> 0%Z -> is_skip_token rt tok = false ->
  handle_token rt st tok = st.
Proof.
  intros Hd Hs. destruct (Z.eqb_spec (skip_depth st) 0) as [|_]; [contradiction|].
  destruct tok as [tag|tag|data]; cbn [handle_token is_skip_token] in *.
  - unfold handle_starttag. rewrite Hs.
    destruct (Z.eqb_spec (skip_depth st) 0); [contradiction|reflexivity].
  - unfold handle_endtag. rewrite Hs. cbn [andb].
    destruct (Z.eqb_spec (skip_depth st) 0); [contradiction|reflexivity].
  - unfold handle_data.
    destruct (Z.eqb_spec (skip_depth st) 0); [contradiction|reflexivity].
Qed.

Lemma handle_tokens_skipped (st : ParserState) (toks : list HtmlToken) :
  skip_depth st <> 0%Z ->
  Forall (fun tok => is_skip_token rt tok = false) toks ->
  fold_left (handle_token rt) toks st = st.
Proof.
  intros Hd H. induction H as [|tok toks Ht _ IH]; [reflexivity|].
  simpl. now rewrite handle_token_skipped.
Qed.

Lemma ensure_paragraph_break_depth (st : ParserState) :
  skip_depth (_ensure_paragraph_break st) = skip_depth st.
Proof.
  destruct (ensure_paragraph_break_cases st) as [[-> _]|[k [_ [_ [_ [_ [H _]]]]]]];
    auto.
Qed.

Lemma append_depth (st : ParserState) (s : str) :
  skip_depth (_append st s) = skip_depth st.
Proof. apply buffer_append. Qed.

Lemma newline_depth (st : ParserState) : skip_depth (_newline st) = skip_depth st.
Proof.
  unfold _newline.
  destruct (negb (nonempty (buffer st)) || endswith (buffer st) [NL]);
    apply append_depth.
Qed.

Lemma pre_lines_depth (raw : str) (lines : list str) (st : ParserState) :
  skip_depth (fold_left (pre_line raw) lines st) = skip_depth st.
Proof.
  revert st. induction lines as [|ln lines IH]; intros st; [reflexivity|].
  simpl. rewrite IH. unfold pre_line.
  destruct (negb (nonempty ln) && endswith raw [NL]); [apply append_depth|].
  rewrite append_depth. destruct (nonempty (strip ln)); [apply append_depth|reflexivity].
Qed.

(** A token changes the depth by one at most, only on the three tags, and
    never below zero. *)
Lemma handle_token_depth (st : ParserState) (tok : HtmlToken) :
  (0 <= skip_depth st)%Z ->
  (0 <= skip_depth (handle_token rt st tok))%Z /\
  (is_skip_token rt tok = false ->
   skip_depth (handle_token rt st tok) = skip_depth st).
Proof.
  intros Hd. destruct tok as [tag|tag|data]; cbn [handle_token is_skip_token].
  - unfold handle_starttag. destruct (in_tags (str_lower rt tag) SKIP_TAGS).
    + simpl. split; [lia|discriminate].
    + destruct (negb (skip_depth st =? 0)%Z); [split; auto|].
      repeat match goal with
             | |- context [if ?b then _ else _] => destruct b
             end; simpl;
        rewrite ?append_depth, ?newline_depth, ?ensure_paragraph_break_depth;
        split; auto.
  - unfold handle_endtag. destruct (in_tags (str_lower rt tag) SKIP_TAGS).
    + destruct (Z.eqb_spec (skip_depth st) 0) as [E|E]; simpl.
      * repeat match goal with
               | |- context [if ?b then _ else _] => destruct b
               end; simpl; rewrite ?ensure_paragraph_break_depth; simpl;
          split; (lia || discriminate).
      * split; [lia|discriminate].
    + simpl. destruct (negb (skip_depth st =? 0)%Z); [split; auto|].
      repeat match goal with
             | |- context [if ?b then _ else _] => destruct b
             end; simpl; rewrite ?ensure_paragraph_break_depth; simpl; split; auto.
  - unfold handle_data.
    repeat match goal with
           | |- context [if ?b then _ else _] => destruct b
           end; rewrite ?append_depth, ?pre_lines_depth; split; auto.
Qed.

End ParserProofs.

(** X21.  An element [script], [style] or [noscript] met outside such an
    element leaves no trace: its start tag, whatever tokens follow that are
    not tags of these three kinds, and the end tag of any of the three, put
    the parser back exactly where it was. *)
Theorem skipped_element_leaves_no_trace
    (rt : Runtime) (st : ParserState) (tag tag' : str)
    (inner rest : list HtmlToken) :
  skip_depth st = 0%Z ->
  in_tags (str_lower rt tag) SKIP_TAGS = true ->
  in_tags (str_lower rt tag') SKIP_TAGS = true ->
  Forall (fun tok => is_skip_token rt tok = false) inner ->
  fold_left (handle_token rt) (StartTag tag :: inner ++ EndTag tag' :: rest) st =
  fold_left (handle_token rt) rest st.
Proof.
  intros Hd Ht Ht' Hin. simpl. rewrite fold_left_app. simpl.
  unfold handle_starttag at 1. rewrite Ht.
  rewrite (handle_tokens_skipped rt (set_skip_depth st (skip_depth st + 1)) inner);
    [|simpl; lia|exact Hin].
  unfold handle_endtag at 1. rewrite Ht'. simpl. rewrite Hd. simpl.
  destruct st as [p d i]. simpl in Hd. subst d. reflexivity.
Qed.

Lemma skipped_element_leaves_no_trace_witness :
  fold_left (handle_token Fixture.rt)
    (StartTag (py "SCRIPT") :: [TextData (py "var x = 1;"); StartTag (py "b")]
       ++ EndTag (py "script") :: [TextData (py "Hello")])
    parser_init =
  fold_left (handle_token Fixture.rt) [TextData (py "Hello")] parser_init.
Proof.
  apply (skipped_element_leaves_no_trace Fixture.rt).
  - reflexivity.
  - vm_compute. reflexivity.
  - vm_compute. reflexivity.
  - repeat constructor.
Defined.

(** X22.  The skip depth never becomes negative, and only the tags
    [script], [style] and [noscript] change it: after tokens that are none of
    these it is what it was. *)
Theorem skip_depth_invariant
    (rt : Runtime) (toks : list HtmlToken) (st : ParserState) :
  (0 <= skip_depth st)%Z ->
  (0 <= skip_depth (fold_left (handle_token rt) toks st))%Z /\
  (Forall (fun tok => is_skip_token rt tok = false) toks ->
   skip_depth (fold_left (handle_token rt) toks st) = skip_depth st).
Proof.
  revert st. induction toks as [|tok toks IH]; intros st Hd; simpl; [auto|].
  destruct (handle_token_depth rt st tok Hd) as [H1 H2].
  destruct (IH _ H1) as [H3 H4]. split; [exact H3|].
  intros H. inversion H; subst. rewrite H4 by assumption. auto.
Qed.

Lemma skip_depth_invariant_witness :
  (0 <= skip_depth (fold_left (handle_token Fixture.rt)
                      [EndTag (py "script"); StartTag (py "p")] parser_init))%Z /\
  (Forall (fun tok => is_skip_token Fixture.rt tok = false)
          [EndTag (py "script"); StartTag (py "p")] ->
   skip_depth (fold_left (handle_token Fixture.rt)
                 [EndTag (py "script"); StartTag (py "p")] parser_init)
   = skip_depth parser_init).
Proof.
  apply (skip_depth_invariant Fixture.rt). simpl. lia.
Defined.

(** ** Titles *)

(** X23.  A title scraped from the HTML has at most 300 characters, does not
    begin with whitespace, and contains no whitespace but single spaces. *)
Theorem extract_html_title_normalised (ex : Extractors) (html : str) :
  length (_extract_html_title ex html) <= 300 /\
  clean_head isspace (_extract_html_title ex html) = true /\
  single_spaced (_extract_html_title ex html) = true.
Proof.
  unfold _extract_html_title.
  destruct (re_search_title ex html) as [group|];
    [|split; [simpl; lia|split; reflexivity]].
  split; [apply firstn_le_length|]. split.
  - apply clean_head_firstn, strip_trimmed.
  - apply single_spaced_firstn, single_spaced_strip.
    apply (collapse_ws_from_spaced false).
Qed.

(** ** The whole request *)

Section ExtractProofs.

Variable rt : Runtime.
Variable cfg : Config.
Variable ex : Extractors.

(** What a response is made of. *)
Lemma extract_from_html_ok (url html : str) (resp : ExtractResponse) :
  extract_from_html rt ex url html = Ok resp ->
  resp_url resp = url /\
  resp_text resp <> [] /\ trimmed isspace (resp_text resp) /\
  length (resp_text resp) <= TEXT_CAP + 11 /\
  resp_title resp <> [].
Proof.
  unfold extract_from_html.
  set (fs := if negb (nonempty (f_text (from_trafilatura ex html)))
             then from_readability rt ex html (from_trafilatura ex html)
             else from_trafilatura ex html).
  destruct (negb (nonempty (f_text fs))); [discriminate|].
  set (title := if negb (nonempty (f_title fs)) then _ else f_title fs).
  assert (Ht : title <> []).
  { unfold title. destruct (f_title fs) as [|c t]; simpl; [|discriminate].
    destruct (_extract_html_title ex html); simpl; discriminate. }
  set (formatted := if nonempty (_build_lead _ _) then _ else _).
  assert (Hf : trimmed isspace formatted /\ length formatted <= TEXT_CAP + 11).
  { unfold formatted. destruct (nonempty (_build_lead _ _));
      split; (apply apply_limits_is_trimmed || apply apply_limits_length). }
  destruct formatted as [|c f] eqn:E; [discriminate|]. simpl.
  intros [= <-]. simpl.
  split; [reflexivity|]. split; [discriminate|]. split; [apply Hf|].
  split; [apply Hf|exact Ht].
Qed.

(** A response comes from an accepted input, a fetched page and the
    extraction, in this order. *)
Lemma extract_chain (request : Request) (body : bytes) (w : World)
    (resp : ExtractResponse) :
  fst (extract rt cfg ex request body w) = Ok resp ->
  exists url t w1 html,
    _extract_input rt request (request_body_json ex body)
      (request_body_text ex body) w = (Ok (url, t), w1) /\
    fst (_fetch_html_best_effort rt cfg url t w1) = Ok html /\
    extract_from_html rt ex url html = Ok resp.
Proof.
  unfold extract, bind, lift.
  destruct (_check_api_key cfg request); [|discriminate].
  destruct (_extract_input rt request _ _ w) as [[[url t]|e] w1]; [|discriminate].
  simpl fst. simpl snd.
  destruct (_fetch_html_best_effort rt cfg url t w1) as [[html|e] w2] eqn:E;
    [|discriminate].
  simpl. intros H. exists url, t, w1, html. rewrite E. auto.
Qed.

(** The calls [_extract_input] makes are those of one validation, if any. *)
Lemma extract_input_world (request : Request) (body_json : BodyJson)
    (body_text : str) (w : World) :
  snd (_extract_input rt request body_json body_text w) = w \/
  exists raw t,
    snd (_extract_input rt request body_json body_text w)
    = snd (_validate_public_http_url rt raw t w).
Proof.
  assert (Hv : forall raw t0,
             snd ((u <- _validate_public_http_url rt raw t0 ;; ret (u, t0)) w)
             = snd (_validate_public_http_url rt raw t0 w)).
  { intros raw t0. rewrite validate_then_ret_run.
    now destruct (_validate_public_http_url rt raw t0 w) as [[u|e] w1]. }
  remember (_extract_input rt request body_json body_text w) as R eqn:ER.
  unfold _extract_input in ER.
  destruct (nonempty (strip (or_empty (query_params request !! py "url")))).
  { right. do 2 eexists. rewrite ER. apply Hv. }
  unfold bind at 1 in ER.
  match type of ER with
  | context [match ?m w with _ => _ end] => destruct (m w) as [[[v t0]|e] w1] eqn:E
  end.
  - assert (w1 = w) as ->.
    { revert E. match goal with |- context [py_truthy ?x] => destruct (py_truthy x) end; simpl.
      - unfold ret. intros H; now inversion H.
      - unfold bind, lift, ret.
        destruct (_extract_url_and_timeout_from_text rt body_text);
          [intros H; now inversion H|discriminate]. }
    cbn [fst snd] in ER. destruct (py_truthy v); cbn [negb] in ER.
    + right. do 2 eexists. rewrite ER. apply Hv.
    + left. now rewrite ER.
  - left. rewrite ER. simpl. revert E.
    match goal with |- context [py_truthy ?x] => destruct (py_truthy x) end; simpl.
    + unfold ret. discriminate.
    + unfold bind, lift, ret.
      destruct (_extract_url_and_timeout_from_text rt body_text);
        [discriminate|intros H; now inversion H].
Qed.

Lemma extract_input_calls (request : Request) (body_json : BodyJson)
    (body_text : str) (w : World) :
  exists evs, calls (snd (_extract_input rt request body_json body_text w))
              = calls w ++ evs /\ forallb is_fetch_call evs = false \/ 
              calls (snd (_extract_input rt request body_json body_text w))
              = calls w ++ evs /\ evs = [].
Proof.
  destruct (extract_input_world request body_json body_text w) as [->|[raw [t ->]]].
  - exists []. right. now rewrite app_nil_r.
  - destruct (validate_effect rt raw t w) as [_ [Hc|[host [prt Hc]]]].
    + exists []. right. now rewrite Hc, app_nil_r.
    + exists [EvGetAddrInfo host prt (Some (Z.min 3 t))]. left. now rewrite Hc.
Qed.

(** The calls of a fetch are calls with its URL. *)
Lemma best_effort_calls (url : str) (t : Z) (w : World) :
  exists evs,
    calls (snd (_fetch_html_best_effort rt cfg url t w)) = calls w ++ evs /\
    Forall (called_with url) evs.
Proof.
  rewrite best_effort_run.
  pose proof (fetch_html_rendered_world rt url t w) as Hw.
  destruct (_fetch_html_rendered rt url t w) as [[h|e] w1]; simpl in Hw; subst w1.
  - eexists. split; [reflexivity|]. constructor; [reflexivity|constructor].
  - destruct (is_timeout e).
    + eexists. split; [reflexivity|]. constructor; [reflexivity|constructor].
    + rewrite fetch_html_world. simpl. rewrite <- app_assoc.
      eexists. split; [reflexivity|].
      constructor; [reflexivity|]. constructor; [reflexivity|constructor].
Qed.

End ExtractProofs.

(** X24.  Without the right key nothing happens: when a key is configured
    and the trimmed [x-api-key] header differs from it, [extract] raises
    [Unauthorized] and the world is unchanged, whatever the request asks
    for. *)
Theorem extract_unauthorized (rt : Runtime) (cfg : Config) (ex : Extractors)
    (request : Request) (body : bytes) (w : World) :
  API_KEY cfg <> [] ->
  strip (or_empty (headers request !! py "x-api-key")) <> API_KEY cfg ->
  extract rt cfg ex request body w = (Raise Unauthorized, w).
Proof.
  intros Hk Hh. unfold extract, bind, lift, _check_api_key, str_eqb.
  destruct (API_KEY cfg) as [|c k]; [congruence|]. simpl.
  now rewrite (bool_decide_eq_false_2 _ Hh).
Qed.

Lemma extract_unauthorized_witness :
  extract Fixture.rt Fixture.cfg ex_readability Fixture.query_request []
    Fixture.w0 = (Raise Unauthorized, Fixture.w0).
Proof.
  apply extract_unauthorized; vm_compute; discriminate.
Defined.

(** X25.  A response of [extract] carries the cleaned URL of a candidate
    that validation accepted, a title that is not empty, and a text that is
    not empty, has no whitespace at either end and has at most 12000
    characters plus the marker. *)
Theorem extract_response_shape (rt : Runtime) (cfg : Config) (ex : Extractors)
    (request : Request) (body : bytes) (w : World) (resp : ExtractResponse) :
  fst (extract rt cfg ex request body w) = Ok resp ->
  (exists raw t w1,
      _validate_public_http_url rt raw t w = (Ok (resp_url resp), w1) /\
      resp_url resp = clean_url raw) /\
  resp_title resp <> [] /\
  resp_text resp <> [] /\ trimmed isspace (resp_text resp) /\
  length (resp_text resp) <= TEXT_CAP + length TRUNCATION_MARKER.
Proof.
  intros H. apply extract_chain in H as [url [t [w1 [html [Hi [_ Hr]]]]]].
  apply extract_from_html_ok in Hr as [Hu [Hne [Htr [Hlen Ht]]]].
  apply extract_input_ok in Hi as [raw [Hv Hc]].
  rewrite Hu. split; [exists raw, t, w1; auto|]. rewrite marker_length. auto.
Qed.

Lemma extract_response_shape_witness :
  exists resp,
    fst (extract Fixture.rt Fixture.cfg ex_readability keyed_request []
           Fixture.w0) = Ok resp /\
    resp_title resp <> [] /\ resp_text resp <> [].
Proof.
  exists {| resp_url := py "http://example.com/"; resp_title := py "Hi there";
            resp_text := py "Hello" |}.
  assert (H : fst (extract Fixture.rt Fixture.cfg ex_readability keyed_request []
                     Fixture.w0)
              = Ok {| resp_url := py "http://example.com/";
                      resp_title := py "Hi there"; resp_text := py "Hello" |})
    by (vm_compute; reflexivity).
  split; [exact H|].
  destruct (extract_response_shape _ _ _ _ _ _ _ H) as [_ [Ht [Hx _]]]. auto.
Defined.

(** X26.  Every URL that [extract] hands to the browser ([page.goto]) or to
    the HTTP client ([session.get]) is the cleaned form of a candidate that
    [_validate_public_http_url] accepted.  This is about the argument of the
    call only: the client is called with [allow_redirects=True] and the
    browser navigates, and the addresses either of them goes on to are
    validated by nothing. *)
Theorem extract_hands_over_validated_url (rt : Runtime) (cfg : Config)
    (ex : Extractors) (request : Request) (body : bytes) (w : World) (ev : Event) :
  In ev (new_calls w (snd (extract rt cfg ex request body w))) ->
  is_fetch_call ev = true ->
  exists raw t w1,
    _validate_public_http_url rt raw t w = (Ok (clean_url raw), w1) /\
    called_with (clean_url raw) ev.
Proof.
  unfold extract, bind, lift.
  destruct (_check_api_key cfg request);
    [|simpl; rewrite new_calls_same by reflexivity; contradiction].
  pose proof (extract_input_calls rt request (request_body_json ex body)
                (request_body_text ex body) w) as [devs Hd].
  destruct (_extract_input rt request _ _ w) as [[[url t]|e] w1] eqn:Ei.
  - simpl fst in *. simpl snd in *.
    destruct (best_effort_calls rt cfg url t w1) as [fevs [Hf Hfe]].
    assert (Hw : snd (let (r, w') := _fetch_html_best_effort rt cfg url t w1 in
                      match r with
                      | Ok a => (extract_from_html rt ex url a, w')
                      | Raise e => (Raise e, w')
                      end) = snd (_fetch_html_best_effort rt cfg url t w1)).
    { now destruct (_fetch_html_best_effort rt cfg url t w1) as [[h|e] w2]. }
    rewrite Hw. clear Hw.
    apply extract_input_ok in Ei as [raw [Hv ->]].
    intros Hin Hfetch.
    assert (Hall : new_calls w (snd (_fetch_html_best_effort rt cfg (clean_url raw) t w1))
                   = devs ++ fevs).
    { apply new_calls_app. rewrite Hf.
      destruct Hd as [[-> _]|[-> _]]; now rewrite app_assoc. }
    rewrite Hall in Hin. apply in_app_or in Hin as [Hin|Hin].
    + exfalso. destruct Hd as [[Hc Hb]|[_ ->]]; [|contradiction].
      destruct (validate_effect rt raw t w) as [_ [Hs|[host [prt Hs]]]];
        rewrite Hv in Hs; simpl in Hs; rewrite Hs in Hc.
      * rewrite <- (app_nil_r (calls w)) in Hc at 1.
        apply app_inv_head in Hc. subst devs. contradiction.
      * apply app_inv_head in Hc. subst devs.
        destruct Hin as [<-|[]]. discriminate Hfetch.
    + exists raw, t, w1. split; [exact Hv|].
      rewrite List.Forall_forall in Hfe. now apply Hfe.
  - simpl snd in *. intros Hin Hfetch. exfalso.
    destruct (extract_input_world rt request (request_body_json ex body)
                (request_body_text ex body) w) as [Hs|[raw [t Hs]]];
      rewrite Ei in Hs; simpl in Hs.
    + subst w1. rewrite new_calls_same in Hin by reflexivity. contradiction.
    + destruct (validate_effect rt raw t w) as [_ [Hc|[host [prt Hc]]]];
        rewrite <- Hs in Hc.
      * rewrite (new_calls_same _ _ Hc) in Hin. contradiction.
      * rewrite (new_calls_app _ _ _ Hc) in Hin.
        destruct Hin as [<-|[]]. discriminate Hfetch.
Qed.

Lemma extract_hands_over_validated_url_witness :
  exists raw t w1,
    _validate_public_http_url Fixture.rt raw t Fixture.w0
    = (Ok (clean_url raw), w1) /\
    called_with (clean_url raw) (EvPlaywright (py "http://example.com/") 15000).
Proof.
  apply (extract_hands_over_validated_url Fixture.rt Fixture.cfg ex_readability
           keyed_request [] Fixture.w0).
  - vm_compute. right. now left.
  - reflexivity.
Defined.
